(** * A prefix tree with autocomplete, autocorrect and wildcard search

    Shallow embedding of [lab.py]: the [Trie] class, the word index, the
    ranking functions [autocomplete] and [autocorrect], the edit generators
    and the wildcard matcher [search] / [word_filter].

    Python objects are mutated in place; here every mutating method returns
    the heap object it worked on next to its outcome, so that the state left
    behind by a raised exception can be stated too. *)

From Stdlib Require Import ZArith Ascii String List Lia.
From stdpp Require Import base option list sorting gmap strings.

Open Scope Z_scope.

(** ** Exceptions and results *)

(** The three exceptions the code can raise: [TypeError] (wrong key type,
    [range(None, ...)], [str + tuple]), [KeyError] (missing key) and
    [IndexError] ([key[0]] on an empty sequence). *)
Inductive exn := TypeError | KeyError | IndexError.

Inductive result (A : Type) : Type :=
| OK (a : A)
| Raise (e : exn).
Arguments OK {A} a.
Arguments Raise {A} e.

(** Sequencing: an exception raised by the first statement is propagated. *)
#[global] Instance result_bind : MBind result := fun A B k r =>
  match r with
  | OK a => k a
  | Raise e => Raise e
  end.

(** [try: ... except KeyError: handler]. *)
Definition except_KeyError {A} (body : result A) (handler : result A) : result A :=
  match body with
  | Raise KeyError => handler
  | r => r
  end.

#[global] Instance exn_eq_dec : EqDecision exn.
Proof. solve_decision. Defined.

#[global] Instance result_eq_dec {A} `{EqDecision A} : EqDecision (result A).
Proof. solve_decision. Defined.

(** ** Keys *)

(** [type(key)]: the two key types a trie is created with. *)
Inductive key_kind := KStr | KTuple.

#[global] Instance key_kind_eq_dec : EqDecision key_kind.
Proof. solve_decision. Defined.

(** A Python [str] is a list of characters. *)
Abbreviation str := (list ascii).

(** String literals. *)
Definition lit (x : string) : str := list_ascii_of_string x.

Section Trie.

(** [E] is the type of the elements of tuple keys (hashable objects, hence
    with a decidable equality); [V] the type of the values other than
    [None]: a Python value is an [option V], with [None] for [None]. *)
Context {E : Type} `{EqDecision E}.
Context {V : Type}.

Inductive pykey :=
| Str (w : str)
| Tup (l : list E).

#[global] Instance pykey_eq_dec : EqDecision pykey.
Proof. solve_decision. Defined.

Definition type_of (key : pykey) : key_kind :=
  match key with
  | Str _ => KStr
  | Tup _ => KTuple
  end.

(** [a + b] on strings and tuples; mixing the two raises [TypeError]. *)
Definition py_add (a b : pykey) : result pykey :=
  match a, b with
  | Str x, Str y => OK (Str (x ++ y))
  | Tup x, Tup y => OK (Tup (x ++ y))
  | _, _ => Raise TypeError
  end.

Definition key_len (key : pykey) : nat :=
  match key with
  | Str w => length w
  | Tup l => length l
  end.

(** The dictionary keys met along the path of [key]: [for k in key] with
    [k = (k,)] for tuples, and [key[0]], [key[1:][0]], ... in [__setitem__].
    The wrapping is decided by [self.key_type] in the source, which is
    [type(key)] once [_valid_key] has passed. *)
Definition units (key : pykey) : list pykey :=
  match key with
  | Str w => map (fun c => Str [c]) w
  | Tup l => map (fun e => Tup [e]) l
  end.

(** ** The trie *)

#[local] Unset Elimination Schemes.

(** A [Trie] object.  [children] is a Python [dict]: insertion ordered,
    one entry per key. *)
Inductive Trie : Type :=
  Node { value : option V; key_type : key_kind; children : list (pykey * Trie) }.

#[local] Set Elimination Schemes.

(** [Trie(key_type)] *)
Definition new_Trie (kt : key_kind) : Trie := Node None kt [].

(** [d[k]] / [k in d] on a [dict] kept as an association list. *)
Fixpoint dict_get (k : pykey) (d : list (pykey * Trie)) : option Trie :=
  match d with
  | [] => None
  | (k', t) :: d' => if decide (k = k') then Some t else dict_get k d'
  end.

(** [d[k] = t]: replaces the entry of [k], or appends a new one. *)
Fixpoint dict_set (k : pykey) (t : Trie) (d : list (pykey * Trie)) : list (pykey * Trie) :=
  match d with
  | [] => [(k, t)]
  | (k', t') :: d' => if decide (k = k') then (k', t) :: d' else (k', t') :: dict_set k t d'
  end.

Definition set_value (v : option V) (t : Trie) : Trie :=
  Node v (key_type t) (children t).

Definition set_children (d : list (pykey * Trie)) (t : Trie) : Trie :=
  Node (value t) (key_type t) d.

Definition _valid_key (self : Trie) (key : pykey) : result unit :=
  if decide (type_of key = key_type self) then OK tt else Raise TypeError.

(** The loop of [_find_trie] over the units of the key. *)
Fixpoint find_loop (cur_trie : Trie) (ks : list pykey) : result Trie :=
  match ks with
  | [] => OK cur_trie
  | k :: ks' =>
      match dict_get k (children cur_trie) with
      | Some t => find_loop t ks'
      | None => Raise KeyError
      end
  end.

Definition _find_trie (self : Trie) (key : pykey) : result Trie :=
  _valid_key self key ;;
  find_loop self (units key).

(** [__setitem__], by recursion on the units of the key: [ty] is
    [type(key)], which [key[1:]] keeps, and [ks] the units of [key].
    The child is created and linked before the recursive call, so the
    object is returned also when the call raises. *)
Fixpoint setitem_rec (self : Trie) (ty : key_kind) (ks : list pykey)
    (v : option V) : result unit * Trie :=
  if decide (ty = key_type self) then
    match ks with
    | [] => (Raise IndexError, self)
    | cur_key :: rest =>
        let d :=
          match dict_get cur_key (children self) with
          | None => children self ++ [(cur_key, new_Trie (key_type self))]
          | Some _ => children self
          end in
        let cur := default (new_Trie (key_type self)) (dict_get cur_key d) in
        match rest with
        | [] => (OK tt, set_children (dict_set cur_key (set_value v cur) d) self)
        | _ :: _ =>
            let (r, cur') := setitem_rec cur ty rest v in
            (r, set_children (dict_set cur_key cur' d) self)
        end
    end
  else (Raise TypeError, self).

Definition __setitem__ (self : Trie) (key : pykey) (v : option V)
    : result unit * Trie :=
  setitem_rec self (type_of key) (units key) v.

Definition __getitem__ (self : Trie) (key : pykey) : result (option V) :=
  t ← _find_trie self key;
  OK (value t).

(** [t.value = v] for the node [t] that [find_loop self ks] returned: the
    node is part of [self], which this rebuilds around the new value. *)
Fixpoint store_value (self : Trie) (ks : list pykey) (v : option V) : Trie :=
  match ks with
  | [] => set_value v self
  | k :: ks' =>
      match dict_get k (children self) with
      | Some t => set_children (dict_set k (store_value t ks' v) (children self)) self
      | None => self
      end
  end.

Definition __delitem__ (self : Trie) (key : pykey) : result unit * Trie :=
  match _find_trie self key with
  | Raise e => (Raise e, self)
  | OK t =>
      match value t with
      | None => (Raise KeyError, self)
      | Some _ => (OK tt, store_value self (units key) None)
      end
  end.

Definition __contains__ (self : Trie) (key : pykey) : result bool :=
  except_KeyError
    (t ← _find_trie self key;
     match value t with
     | None => OK false
     | Some _ => OK true
     end)
    (OK false).

(** [recursive_generator]: the pairs it yields, or the exception that
    [key + k] raises.  [trie.children[k]] is the [t] of the same item. *)
Fixpoint recursive_generator (key : pykey) (trie : Trie) : result (list (pykey * V)) :=
  let own :=
    match value trie with
    | Some v => [(key, v)]
    | None => []
    end in
  below ← (fix items (d : list (pykey * Trie)) : result (list (pykey * V)) :=
              match d with
              | [] => OK []
              | (k, t) :: d' =>
                  key' ← py_add key k;
                  here ← recursive_generator key' t;
                  there ← items d';
                  OK (here ++ there)
              end) (children trie);
  OK (own ++ below).

Definition __iter__ (self : Trie) : result (list (pykey * V)) :=
  match key_type self with
  | KTuple => recursive_generator (Tup []) self
  | KStr => recursive_generator (Str []) self
  end.

End Trie.

(** ** Python sets *)

(** A [set] is kept as the list of its distinct elements in the order they
    were first added.  The order in which Python iterates over it depends on
    hashes: it is [set_iter] of that list, a parameter of everything that
    iterates over a set. *)
Section PySet.
Context {A : Type} `{EqDecision A}.

Definition set_add (x : A) (a : list A) : list A :=
  if decide (x ∈ a) then a else a ++ [x].

End PySet.

(** ** Word index *)

(** [w.split(" ")] *)
Fixpoint split_space (w : str) : list str :=
  match w with
  | [] => [[]]
  | c :: w' =>
      if decide (c = " "%char) then [] :: split_space w'
      else match split_space w' with
           | x :: xs => (c :: x) :: xs
           | [] => [[c]]
           end
  end.

Section WordIndex.
Context {E : Type} `{EqDecision E}.

(** [text_tokenize.tokenize_sentences] is imported, not part of [lab.py]:
    it is a parameter here. *)
Variable tokenize_sentences : str -> list str.

(** The body of the inner loop of [make_word_trie]. *)
Definition count_word (word_trie : @Trie E Z) (w : str) : result (@Trie E Z) :=
  b ← __contains__ word_trie (Str w);
  if (b : bool) then
    v ← __getitem__ word_trie (Str w);
    match v with
    | Some c =>
        let (r, t) := __setitem__ word_trie (Str w) (Some (c + 1)) in
        r ;; OK t
    | None => Raise TypeError
    end
  else
    let (r, t) := __setitem__ word_trie (Str w) (Some 1) in
    r ;; OK t.

Fixpoint count_words (word_trie : @Trie E Z) (ws : list str) : result (@Trie E Z) :=
  match ws with
  | [] => OK word_trie
  | w :: ws' => t ← count_word word_trie w; count_words t ws'
  end.

Fixpoint count_sentences (word_trie : @Trie E Z) (sentences : list str)
    : result (@Trie E Z) :=
  match sentences with
  | [] => OK word_trie
  | st :: sentences' =>
      t ← count_words word_trie (split_space st);
      count_sentences t sentences'
  end.

Definition make_word_trie (text : str) : result (@Trie E Z) :=
  count_sentences (new_Trie KStr) (tokenize_sentences text).

End WordIndex.

(** ** Phrase index *)

(** [" ".join(ws)] *)
Fixpoint join_space (ws : list str) : str :=
  match ws with
  | [] => []
  | [w] => w
  | w :: ws' => w ++ " "%char :: join_space ws'
  end.

(** [get_sentence_tuple]: [sent_tuple += (word,)] for each word of
    [sentence.split(" ")], from [()]. *)
Definition get_sentence_tuple (sentence : str) : @pykey str :=
  Tup (foldl (fun sent_tuple word => sent_tuple ++ [word]) [] (split_space sentence)).

Section PhraseIndex.

(** [text_tokenize.tokenize_sentences], a parameter as in the word index. *)
Variable tokenize_sentences : str -> list str.

(** The body of the loop of [make_phrase_trie]. *)
Definition count_sentence (phrase_trie : @Trie str Z) (st : str)
    : result (@Trie str Z) :=
  let sent_tuple := get_sentence_tuple st in
  b ← __contains__ phrase_trie sent_tuple;
  if (b : bool) then
    v ← __getitem__ phrase_trie sent_tuple;
    match v with
    | Some c =>
        let (r, t) := __setitem__ phrase_trie sent_tuple (Some (c + 1)) in
        r ;; OK t
    | None => Raise TypeError
    end
  else
    let (r, t) := __setitem__ phrase_trie sent_tuple (Some 1) in
    r ;; OK t.

Fixpoint count_phrases (phrase_trie : @Trie str Z) (sentences : list str)
    : result (@Trie str Z) :=
  match sentences with
  | [] => OK phrase_trie
  | st :: sentences' =>
      t ← count_sentence phrase_trie st;
      count_phrases t sentences'
  end.

Definition make_phrase_trie (text : str) : result (@Trie str Z) :=
  count_phrases (new_Trie KTuple) (tokenize_sentences text).

End PhraseIndex.

(** ** Ranking by frequency *)

(** [range(max_freq, 0, -1)]: [max_freq], [max_freq - 1], ..., [1]. *)
Definition range_down (max_freq : Z) : list Z :=
  map (fun i => max_freq - Z.of_nat i) (seq 0 (Z.to_nat max_freq)).

(** [max_count == None or len(element_list) < max_count] *)
Definition room {A} (max_count : option Z) (element_list : list A) : bool :=
  match max_count with
  | None => true
  | Some n => bool_decide (Z.of_nat (length element_list) < n)
  end.

Section Ranking.
Context {E : Type} `{EqDecision E}.
Variable set_iter : forall A : Type, list A -> list A.

#[local] Abbreviation key := (@pykey E).

(** The state of the first loop: [freq_map] and [max_freq]. *)
Definition freq_state : Type := gmap Z (list key) * option Z.

(** One turn of the first loop for the word [w] of frequency [count]:
    [freq_map[count] |= {w}] or [freq_map[count] = {w}], then
    [if not max_freq or count > max_freq: max_freq = count]. *)
Definition tally (st : freq_state) (w : key) (count : Z) : freq_state :=
  let freq_map :=
    match st.1 !! count with
    | Some ws => <[count := set_add w ws]> st.1
    | None => <[count := [w]]> st.1
    end in
  let max_freq :=
    match st.2 with
    | None => Some count
    | Some m =>
        if bool_decide (m = 0) || bool_decide (m < count) then Some count
        else Some m
    end in
  (freq_map, max_freq).

(** [for w in freq_map[i]: if room: element_list.append(mk(w)) else: break],
    with [mk w = prefix + w] in [autocomplete] and [mk w = w] in
    [autocorrect]. *)
Fixpoint append_words (mk : key -> result key) (max_count : option Z)
    (ws : list key) (element_list : list key) : result (list key) :=
  match ws with
  | [] => OK element_list
  | w :: ws' =>
      if room max_count element_list then
        x ← mk w;
        append_words mk max_count ws' (element_list ++ [x])
      else OK element_list
  end.

(** [for i in range(max_freq, 0, -1): if i in freq_map: ...] *)
Fixpoint append_buckets (mk : key -> result key) (max_count : option Z)
    (freq_map : gmap Z (list key)) (range : list Z) (element_list : list key)
    : result (list key) :=
  match range with
  | [] => OK element_list
  | i :: range' =>
      match freq_map !! i with
      | Some ws =>
          l ← append_words mk max_count (set_iter _ ws) element_list;
          append_buckets mk max_count freq_map range' l
      | None => append_buckets mk max_count freq_map range' element_list
      end
  end.

(** The second loop; [range(None, 0, -1)] raises [TypeError]. *)
Definition emit (mk : key -> result key) (max_count : option Z)
    (st : freq_state) (element_list : list key) : result (list key) :=
  match st.2 with
  | None => Raise TypeError
  | Some max_freq =>
      append_buckets mk max_count st.1 (range_down max_freq) element_list
  end.

Definition autocomplete (trie : @Trie E Z) (prefix : key)
    (max_count : option Z) : result (list key) :=
  except_KeyError
    (t ← _find_trie trie prefix;
     es ← __iter__ t;
     let st := foldl (fun st e => tally st e.1 e.2) (∅, None) es in
     emit (py_add prefix) max_count st [])
    (OK []).

(** *** Edits *)

Definition letters : str := lit "abcdefghijklmnopqrstuvwxyz".

(** [prefix[:i] + l + prefix[i:]] *)
Definition get_single_insertions (prefix : str) : list str :=
  i ← seq 0 (length prefix + 1);
  l ← letters;
  [take i prefix ++ [l] ++ drop i prefix].

(** [prefix[:i] + prefix[i+1:]] *)
Definition get_single_deletions (prefix : str) : list str :=
  i ← seq 0 (length prefix);
  [take i prefix ++ drop (i + 1) prefix].

(** [prefix[:i] + l + prefix[i+1:]] *)
Definition get_single_replacement (prefix : str) : list str :=
  i ← seq 0 (length prefix);
  l ← letters;
  [take i prefix ++ [l] ++ drop (i + 1) prefix].

(** [prefix[a:b]] *)
Definition slice (a b : nat) (prefix : str) : str :=
  take (b - a) (drop a prefix).

(** [prefix[:i] + prefix[j] + prefix[i+1:j] + prefix[i] + prefix[j+1:]] for
    [i] in [range(len(prefix)-1)] and [j] in [range(i+1, len(prefix))];
    [prefix[j]] is the one-character string [prefix[j:j+1]], [j] being in
    range. *)
Definition get_two_char_transpose (prefix : str) : list str :=
  i ← seq 0 (length prefix - 1);
  j ← seq (i + 1) (length prefix - (i + 1));
  [take i prefix ++ slice j (j + 1) prefix ++ slice (i + 1) j prefix
     ++ slice i (i + 1) prefix ++ drop (j + 1) prefix].

Definition get_edits_str (prefix : str) : list str :=
  get_single_insertions prefix ++ get_single_deletions prefix
    ++ get_single_replacement prefix ++ get_two_char_transpose prefix.

(** [get_edits] on a key: on a tuple the first edit, [prefix[:0] + 'a'],
    raises [TypeError]. *)
Definition get_edits (prefix : key) : result (list key) :=
  match prefix with
  | Str w => OK (Str <$> get_edits_str w)
  | Tup _ => Raise TypeError
  end.

(** The loop over the edits in [autocorrect]. *)
Fixpoint tally_edits (trie : @Trie E Z) (used_words : list key)
    (words : list key) (st : freq_state) : result freq_state :=
  match words with
  | [] => OK st
  | word :: words' =>
      if decide (word ∈ used_words) then tally_edits trie used_words words' st
      else
        b ← __contains__ trie word;
        if (b : bool) then
          count ← __getitem__ trie word;
          match count with
          | Some c => tally_edits trie used_words words' (tally st word c)
          | None => (* not reached: [word in trie] has just held *)
              tally_edits trie used_words words' st
          end
        else tally_edits trie used_words words' st
  end.

Definition autocorrect (trie : @Trie E Z) (prefix : key)
    (max_count : option Z) : result (list key) :=
  element_list ← autocomplete trie prefix max_count;
  if room max_count element_list then
    words ← get_edits prefix;
    st ← tally_edits trie element_list words (∅, None);
    emit OK max_count st element_list
  else OK element_list.

(** *** Notions used to state what the two loops compute *)

(** The words of frequency [c] in [freq_map]. *)
Definition bucket (freq_map : gmap Z (list key)) (c : Z) : list key :=
  default [] (freq_map !! c).

(** What [freq_map] and [max_freq] hold once the pairs [seen] are tallied. *)
Definition tallied (st : freq_state) (seen : list (key * Z)) : Prop :=
  (forall c w, w ∈ bucket st.1 c <-> (w, c) ∈ seen) /\
  (st.2 = None <-> seen = []) /\
  (forall m, st.2 = Some m -> forall w c, (w, c) ∈ seen -> 0 < c -> c <= m).

(** The words of the buckets of [range], each with its frequency, in the
    order the second loop visits them. *)
Definition ranked (freq_map : gmap Z (list key)) (range : list Z)
    : list (key * Z) :=
  i ← range;
  (fun w => (w, i)) <$>
    match freq_map !! i with
    | Some ws => set_iter _ ws
    | None => []
    end.

(** The part of [ws] there is room for in a list of [len] elements. *)
Definition cap {A} (max_count : option Z) (len : nat) (ws : list A) : list A :=
  match max_count with
  | None => ws
  | Some n => take (Z.to_nat (n - Z.of_nat len)) ws
  end.

(** The edit that passes the test of [autocorrect], with its count. *)
Definition valid_edit (trie : @Trie E Z) (used_words : list key) (word : key)
    : option (key * Z) :=
  if decide (word ∈ used_words) then None
  else
    match __contains__ trie word, __getitem__ trie word with
    | OK true, OK (Some c) => Some (word, c)
    | _, _ => None
    end.

End Ranking.

(** ** Wildcard search *)

(** The outcome of a recursive function run with a recursion budget:
    a value, an exception, or [Fuel] when the budget was too small. *)
Inductive run (A : Type) : Type :=
| Ret (a : A)
| Exc (e : exn)
| Fuel.
Arguments Ret {A} a.
Arguments Exc {A} e.
Arguments Fuel {A}.

#[global] Instance run_bind : MBind run := fun A B k r =>
  match r with
  | Ret a => k a
  | Exc e => Exc e
  | Fuel => Fuel
  end.

Definition lift {A} (r : result A) : run A :=
  match r with
  | OK a => Ret a
  | Raise e => Exc e
  end.

(** [try: ... except KeyError: pass], the value being [matches]. *)
Definition except_KeyError_pass {A} (body : run A) (matches : A) : run A :=
  match body with
  | Exc KeyError => Ret matches
  | r => r
  end.

(** [while len(pattern) > 1 and pattern[1] == '*': pattern = pattern[1:]] *)
Fixpoint skip_stars (pattern : str) : str :=
  match pattern with
  | p0 :: (p1 :: _) as rest =>
      if decide (p1 = "*"%char) then skip_stars rest else pattern
  | _ => pattern
  end.

Section Search.
Context {E : Type} `{EqDecision E}.
Context {V : Type} `{EqDecision V}.
Variable set_iter : forall A : Type, list A -> list A.

#[local] Abbreviation key := (@pykey E).
#[local] Abbreviation match_set := (list (key * option V)).

(** [a |= b]: the elements of [b], in the order [b] is iterated, are added
    to [a]. *)
Definition set_union (a b : match_set) : match_set :=
  foldl (fun acc x => set_add x acc) a (set_iter _ b).

(** [len(pattern) > 1 and c == pattern[1]] *)
Definition is_second (c : key) (pattern : str) : bool :=
  match pattern with
  | _ :: p1 :: _ => bool_decide (c = Str [p1])
  | _ => false
  end.

(** [for c in cs: body], the loop state being [matches]. *)
Fixpoint for_children (body : match_set -> key -> run match_set)
    (cs : list key) (matches : match_set) : run match_set :=
  match cs with
  | [] => Ret matches
  | c :: cs' => m ← body matches c; for_children body cs' m
  end.

(** [search(trie, pattern, word)]; [fuel] bounds the depth of the
    recursion.  A [Trie] object has neither [__bool__] nor [__len__], so the
    test [if trie._find_trie(word+pattern[0])] holds whenever the call
    returns. *)
Fixpoint search (fuel : nat) (trie : @Trie E V) (pattern : str) (word : key)
    : run match_set :=
  match fuel with
  | O => Fuel
  | S fuel =>
      match pattern with
      | [] =>
          b ← lift (__contains__ trie word);
          if (b : bool) then
            v ← lift (__getitem__ trie word);
            Ret [(word, v)]
          else Ret []
      | p0 :: _ =>
          if decide (p0 = "*"%char) then
            let pattern := skip_stars pattern in
            m ← search fuel trie (tail pattern) word;
            let matches := set_union [] m in
            t ← lift (_find_trie trie word);
            for_children
              (fun matches c =>
                 word' ← lift (py_add word c);
                 m1 ← search fuel trie pattern word';
                 let matches := set_union matches m1 in
                 if is_second c pattern then
                   m2 ← search fuel trie (tail pattern) word';
                   Ret (set_union matches m2)
                 else Ret matches)
              (children t).*1 matches
          else if decide (p0 = "?"%char) then
            t ← lift (_find_trie trie word);
            for_children
              (fun matches c =>
                 word' ← lift (py_add word c);
                 m1 ← search fuel trie (tail pattern) word';
                 Ret (set_union matches m1))
              (children t).*1 []
          else
            except_KeyError_pass
              (word' ← lift (py_add word (Str [p0]));
               _ ← lift (_find_trie trie word');
               m ← search fuel trie (tail pattern) word';
               Ret (set_union [] m))
              []
      end
  end.

(** [word_filter]: [list(search(trie, pattern, ""))]. *)
Definition word_filter (fuel : nat) (trie : @Trie E V) (pattern : str)
    : run match_set :=
  matches ← search fuel trie pattern (Str []);
  Ret (set_iter _ matches).

End Search.

(** ** Invariants and specification notions *)

Section Invariants.
Context {E : Type} `{EqDecision E}.
Context {V : Type}.

#[local] Abbreviation key := (@pykey E).

(** A dictionary key of a trie of kind [kt]: a one-character string or a
    one-element tuple. *)
Definition is_unit (kt : key_kind) (k : key) : Prop :=
  type_of k = kt /\ key_len k = 1%nat.

(** The tries the class builds: every node has the key type of the root,
    a dictionary has one entry per key, and its keys are units. *)
Fixpoint wf (kt : key_kind) (t : @Trie E V) {struct t} : Prop :=
  key_type t = kt /\ NoDup (children t).*1 /\
  (fix all (d : list (key * Trie)) : Prop :=
     match d with
     | [] => True
     | (k, c) :: d' => (is_unit kt k /\ wf kt c) /\ all d'
     end) (children t).

(** The value found along the path [ks], [None] when the path is missing. *)
Definition stored_at (t : @Trie E V) (ks : list key) : option V :=
  match find_loop t ks with
  | OK n => value n
  | Raise _ => None
  end.

(** The value of the node at the end of the path [ks]. *)
Definition value_at (t : @Trie E V) (ks : list key) : result (option V) :=
  n ← find_loop t ks;
  OK (value n).

(** The child a dictionary holds for [k], or the one [__setitem__] makes. *)
Definition child_or_new (self : @Trie E V) (k : key) : @Trie E V :=
  default (new_Trie (key_type self)) (dict_get k (children self)).

(** Replacing the child for [k] in the dictionary of [self]. *)
Definition with_child (self : @Trie E V) (k : key) (c : @Trie E V) : @Trie E V :=
  set_children (dict_set k c (children self)) self.

(** [a + b] where it does not raise. *)
Definition glue (a b : key) : key :=
  match a, b with
  | Str x, Str y => Str (x ++ y)
  | Tup x, Tup y => Tup (x ++ y)
  | _, _ => a
  end.

(** The key that [recursive_generator] builds along a path, from [k]. *)
Definition join (k : key) (ks : list key) : key := foldl glue k ks.

(** [''] or [()] *)
Definition empty_key (kt : key_kind) : key :=
  match kt with
  | KStr => Str []
  | KTuple => Tup []
  end.

(** The paths holding a value, a node before its children. *)
Fixpoint entries (t : @Trie E V) : list (list key * V) :=
  match value t with
  | Some v => [([], v)]
  | None => []
  end ++
  (fix items (d : list (key * Trie)) : list (list key * V) :=
     match d with
     | [] => []
     | (k, c) :: d' => (prod_map (cons k) id <$> entries c) ++ items d'
     end) (children t).

(** No node of the trie holds a value. *)
Fixpoint valueless (t : @Trie E V) : Prop :=
  value t = None /\
  (fix all (d : list (key * Trie)) : Prop :=
     match d with
     | [] => True
     | (_, c) :: d' => valueless c /\ all d'
     end) (children t).

(** The number of edges of the longest path. *)
Fixpoint height (t : @Trie E V) : nat :=
  (fix items (d : list (key * Trie)) : nat :=
     match d with
     | [] => O
     | (_, c) :: d' => Nat.max (S (height c)) (items d')
     end) (children t).

(** The two mutating methods, and the trie a sequence of calls builds from
    [Trie(kt)], whether the calls return or raise. *)
Inductive call :=
| Set_item (k : key) (v : option V)
| Del_item (k : key).

Definition after_call (t : @Trie E V) (c : call) : @Trie E V :=
  match c with
  | Set_item k v => (__setitem__ t k v).2
  | Del_item k => (__delitem__ t k).2
  end.

Definition built (kt : key_kind) (calls : list call) : @Trie E V :=
  foldl after_call (new_Trie kt) calls.

(** [key] starts with [prefix]. *)
Definition starts_with (prefix k : key) : Prop :=
  exists w, py_add prefix w = OK k.

End Invariants.

(** ** Notions used to state what the indexes hold *)

(** The number of times [x] occurs in [l]. *)
Definition occurrences {A} `{EqDecision A} (x : A) (l : list A) : Z :=
  Z.of_nat (length (filter (fun y => y = x) l)).

(** The body that the loops of the two indexes share, on the key [k]. *)
Definition count_key {E : Type} `{EqDecision E} (t : @Trie E Z) (k : @pykey E)
    : result (@Trie E Z) :=
  b ← __contains__ t k;
  if (b : bool) then
    v ← __getitem__ t k;
    match v with
    | Some c =>
        let (r, t') := __setitem__ t k (Some (c + 1)) in
        r ;; OK t'
    | None => Raise TypeError
    end
  else
    let (r, t') := __setitem__ t k (Some 1) in
    r ;; OK t'.

(** The trie [t] holds, for each key of the kind [kt], the number of times
    the key occurs in [m], and nothing for the keys that do not occur. *)
Definition counted {E : Type} `{EqDecision E} (kt : key_kind) (t : @Trie E Z)
    (m : list (@pykey E)) : Prop :=
  forall k, type_of k = kt ->
    stored_at t (units k) = if decide (k ∈ m) then Some (occurrences k m) else None.

(** The words of the sentences, in the order [make_word_trie] meets them. *)
Definition words_of (sentences : list str) : list str :=
  sentences ≫= split_space.

(** The lowercase letters. *)
Definition lowercase (c : ascii) : Prop := c ∈ letters.

(** The edit-distance-1 neighbourhood as the specification words it: one
    insertion of a letter, one deletion, one substitution by a letter, or
    one transposition of two adjacent characters. *)
Inductive edit1 (p : str) : str -> Prop :=
| edit1_insert a b c : p = a ++ b -> lowercase c -> edit1 p (a ++ c :: b)
| edit1_delete a b c : p = a ++ c :: b -> edit1 p (a ++ b)
| edit1_replace a b c c' :
    p = a ++ c :: b -> lowercase c' -> edit1 p (a ++ c' :: b)
| edit1_transpose a b c d : p = a ++ c :: d :: b -> edit1 p (a ++ d :: c :: b).

(** The exchange of two characters that are not adjacent. *)
Inductive far_swap (p : str) : str -> Prop :=
| far_swap_intro a b c d m :
    m <> [] -> p = a ++ c :: m ++ d :: b -> far_swap p (a ++ d :: m ++ c :: b).

(** A word matches a pattern: a literal character matches itself, [?]
    one arbitrary character, [*] any run of characters. *)
Inductive matches : str -> str -> Prop :=
| matches_nil : matches [] []
| matches_star p w1 w2 : matches p w2 -> matches ("*"%char :: p) (w1 ++ w2)
| matches_any p c w : matches p w -> matches ("?"%char :: p) (c :: w)
| matches_char p c w :
    c <> "*"%char -> c <> "?"%char -> matches p w -> matches (c :: p) (c :: w).

(** A decision procedure for [matches]. *)
Fixpoint matchb (p w : str) : bool :=
  match p with
  | [] => bool_decide (w = [])
  | c :: p' =>
      if decide (c = "*"%char) then
        (fix star (w : str) : bool :=
           matchb p' w || match w with [] => false | _ :: w' => star w' end) w
      else
        match w with
        | [] => false
        | d :: w' => (bool_decide (c = "?"%char) || bool_decide (c = d)) && matchb p' w'
        end
  end.

(** ** Notions used to state what [search] computes *)

Section SearchNotions.
Context {E : Type} `{EqDecision E}.
Context {V : Type}.

(** [x] is a pair [(w + u, value)] for a word [u] that matches [pattern]
    and holds a value below the node [n], the node of [w]. *)
Definition found (n : @Trie E V) (w pattern : str) (x : @pykey E * option V) : Prop :=
  exists u f,
    x = (Str (w ++ u), Some f) /\ matches pattern u /\
    stored_at n (units (Str u)) = Some f.

(** [x] is found below the child of [n] for the key [c]. *)
Definition below (n : @Trie E V) (w pattern : str) (c : @pykey E)
    (x : @pykey E * option V) : Prop :=
  exists ch child,
    c = Str [ch] /\ dict_get c (children n) = Some child /\
    found child (w ++ [ch]) pattern x.

End SearchNotions.

(** The pair [word_filter] returns for an item of the iteration, when its
    key matches the pattern. *)
Definition matching_item {E V : Type} (pattern : str) (e : @pykey E * V)
    : option (@pykey E * option V) :=
  match e.1 with
  | Str w => if matchb pattern w then Some (Str w, Some e.2) else None
  | Tup _ => None
  end.

(** ** Example tries *)

(** Sets iterated in insertion order: one admissible iteration order. *)
Definition insertion_order : forall A : Type, list A -> list A := fun _ l => l.

(** [lab.py] never looks at the sentence structure beyond splitting; the
    text of the examples is one sentence. *)
Definition one_sentence (text : str) : list str := [text].

Definition word_trie (text : string) : result (@Trie nat Z) :=
  make_word_trie one_sentence (lit text).

Definition trie_of (text : string) : @Trie nat Z :=
  match word_trie text with
  | OK t => t
  | Raise _ => new_Trie KStr
  end.

(** The trie of the docstring of [__delitem__]. *)
Definition bat_trie : @Trie nat Z :=
  (__setitem__ (new_Trie KStr) (Str (lit "bat")) (Some 1)).2.

(** The trie of the docstring of [__delitem__] once ['bat'] is deleted. *)
Definition deleted_bat_trie : @Trie nat Z :=
  (__delitem__ bat_trie (Str (lit "bat"))).2.


(** The docstring's trie with ['bar'] assigned too. *)
Definition bar_bat_trie : @Trie nat Z :=
  (__setitem__ bat_trie (Str (lit "bar")) (Some 2)).2.

(** The phrase index of the one sentence ["i like waffles"]. *)
Definition waffles_trie : @Trie str Z :=
  match make_phrase_trie one_sentence (lit "i like waffles") with
  | OK t => t
  | Raise _ => new_Trie KTuple
  end.

(** The three pairs of the index of ["bar bark bat bat"]. *)
Definition bar_1 {E : Type} : @pykey E * option Z := (Str (lit "bar"), Some 1).
Definition bark_1 {E : Type} : @pykey E * option Z := (Str (lit "bark"), Some 1).
Definition bat_2 {E : Type} : @pykey E * option Z := (Str (lit "bat"), Some 2).

(** * Properties *)

(** ** Dictionaries and tries *)

Section TrieFacts.
Context {E : Type} `{EqDecision E}.
Context {V : Type}.

#[local] Abbreviation key := (@pykey E).
#[local] Abbreviation trie := (@Trie E V).
#[local] Abbreviation dict := (list (key * trie)).

Lemma Trie_ind (P : trie -> Prop) :
  (forall v kt d, Forall (fun kc => P kc.2) d -> P (Node v kt d)) ->
  forall t, P t.
Proof.
  intros IH. fix rec 1. intros [v kt d]. apply IH.
  induction d as [|[k c] d IHd]; constructor; [apply rec | apply IHd].
Qed.

Lemma wf_unfold kt (t : trie) :
  wf kt t <->
  key_type t = kt /\ NoDup (children t).*1 /\
  Forall (fun kc => is_unit kt kc.1 /\ wf kt kc.2) (children t).
Proof.
  destruct t as [v kt' d]; simpl.
  assert ((fix all (d : dict) : Prop :=
             match d with
             | [] => True
             | (k, c) :: d' => (is_unit kt k /\ wf kt c) /\ all d'
             end) d
          <-> Forall (fun kc => is_unit kt kc.1 /\ wf kt kc.2) d) as ->; [|done].
  induction d as [|[k c] d IHd]; [by split; [constructor|]|].
  rewrite Forall_cons, IHd. done.
Qed.

Lemma valueless_unfold (t : trie) :
  valueless t <->
  value t = None /\ Forall (fun kc => valueless kc.2) (children t).
Proof.
  destruct t as [v kt' d]; simpl.
  assert ((fix all (d : dict) : Prop :=
             match d with
             | [] => True
             | (_, c) :: d' => valueless c /\ all d'
             end) d
          <-> Forall (fun kc => valueless kc.2) d) as ->; [|done].
  induction d as [|[k c] d IHd]; [by split; [constructor|]|].
  rewrite Forall_cons, IHd. done.
Qed.

Lemma wf_new kt : wf kt (new_Trie kt : trie).
Proof. apply wf_unfold; simpl. split_and!; [done|constructor|constructor]. Qed.

Lemma dict_get_Some k (d : dict) t : dict_get k d = Some t -> (k, t) ∈ d.
Proof.
  induction d as [|[k' t'] d IHd]; simpl; [done|].
  case_decide as Hk; [intros [= ->]; subst; left | right; auto].
Qed.

Lemma dict_get_elem k (d : dict) t :
  NoDup d.*1 -> (k, t) ∈ d -> dict_get k d = Some t.
Proof.
  induction d as [|[k' t'] d IHd]; simpl; [by intros _ ?%elem_of_nil|].
  rewrite NoDup_cons. intros [Hk' Hd] [[= -> ->]|Hin]%elem_of_cons.
  - by rewrite decide_True.
  - rewrite decide_False; [auto|]. intros ->. apply Hk'.
    apply list_elem_of_fmap. by exists (k', t).
Qed.

Lemma dict_get_set k k' t (d : dict) :
  dict_get k' (dict_set k t d) = if decide (k' = k) then Some t else dict_get k' d.
Proof.
  induction d as [|[k0 t0] d IHd]; simpl.
  - by repeat case_decide.
  - destruct (decide (k = k0)) as [->|Hk]; simpl.
    + by destruct (decide (k' = k0)).
    + rewrite IHd. destruct (decide (k' = k0)) as [->|]; [|done].
      by rewrite decide_False.
Qed.

Lemma dict_set_keys k t (d : dict) :
  (dict_set k t d).*1 = if decide (k ∈ d.*1) then d.*1 else d.*1 ++ [k].
Proof.
  induction d as [|[k0 t0] d IHd]; [done|].
  cbn [dict_set]. destruct (decide (k = k0)) as [->|Hk].
  - rewrite decide_True; [done|]. rewrite fmap_cons. left.
  - rewrite !fmap_cons, IHd. simpl. destruct (decide (k ∈ d.*1)) as [Hin|Hin].
    + rewrite decide_True; [done|by right].
    + rewrite decide_False; [done|]. rewrite not_elem_of_cons. done.
Qed.

Lemma dict_set_append k t t' (d : dict) :
  dict_get k d = None -> dict_set k t (d ++ [(k, t')]) = dict_set k t d.
Proof.
  induction d as [|[k0 t0] d IHd]; simpl.
  - by case_decide.
  - case_decide; [done|]. intros ?. by rewrite IHd.
Qed.


Lemma dict_set_Forall (P : key * trie -> Prop) k t (d : dict) :
  Forall P d -> P (k, t) -> Forall P (dict_set k t d).
Proof.
  intros Hd Hk. induction Hd as [|[k0 t0] d H0 Hd IHd]; cbn [dict_set].
  - by constructor.
  - destruct (decide (k = k0)) as [->|]; constructor; auto.
Qed.

Lemma dict_set_NoDup k t (d : dict) : NoDup d.*1 -> NoDup (dict_set k t d).*1.
Proof.
  intros Hd. rewrite dict_set_keys. case_decide as Hk; [done|].
  apply NoDup_app. split_and!; [done| |apply NoDup_singleton].
  intros x Hx ->%list_elem_of_singleton. done.
Qed.

(** *** Paths *)

Lemma units_is_unit (k : key) : Forall (is_unit (type_of k)) (units k).
Proof. destruct k as [w|l]; simpl; apply Forall_fmap, Forall_true; done. Qed.

Lemma units_inj (k1 k2 : key) :
  type_of k1 = type_of k2 -> units k1 = units k2 -> k1 = k2.
Proof.
  destruct k1 as [w1|l1], k2 as [w2|l2]; simpl; try done; intros _ Hu; f_equal.
  - revert w2 Hu. induction w1 as [|c w1 IH]; intros [|c2 w2]; simpl; try done.
    intros [= -> Hw]. f_equal. auto.
  - revert l2 Hu. induction l1 as [|c l1 IH]; intros [|c2 l2]; simpl; try done.
    intros [= -> Hw]. f_equal. auto.
Qed.

Lemma units_nil (k : key) : units k = [] <-> key_len k = 0%nat.
Proof. destruct k as [[|??]|[|??]]; simpl; split; done. Qed.

Lemma stored_at_new kt ks : stored_at (new_Trie kt : trie) ks = None.
Proof. by destruct ks. Qed.

Lemma stored_at_cons (self : trie) k ks :
  stored_at self (k :: ks) = stored_at (child_or_new self k) ks.
Proof.
  unfold stored_at, child_or_new; simpl.
  destruct (dict_get k (children self)) as [c|]; simpl; [done|].
  by destruct ks.
Qed.

Lemma wf_child kt (self : trie) k c :
  wf kt self -> dict_get k (children self) = Some c -> wf kt c /\ is_unit kt k.
Proof.
  intros (_ & _ & Hall)%wf_unfold Hk%dict_get_Some.
  rewrite Forall_forall in Hall. by destruct (Hall _ Hk).
Qed.

Lemma wf_child_or_new kt (self : trie) k : wf kt self -> wf kt (child_or_new self k).
Proof.
  intros Hwf. unfold child_or_new.
  destruct (dict_get k (children self)) as [c|] eqn:Hk; simpl.
  - by destruct (wf_child _ _ _ _ Hwf Hk).
  - apply wf_unfold in Hwf as (-> & _). apply wf_new.
Qed.

Lemma wf_key_type kt (self : trie) : wf kt self -> key_type self = kt.
Proof. by intros (? & _)%wf_unfold. Qed.

Lemma wf_with_child kt (self : trie) k c :
  wf kt self -> is_unit kt k -> wf kt c -> wf kt (with_child self k c).
Proof.
  intros (Hkt & Hnd & Hall)%wf_unfold Hk Hc. apply wf_unfold; simpl.
  split_and!; [done|by apply dict_set_NoDup|by apply dict_set_Forall].
Qed.

Lemma wf_set_value kt (self : trie) v : wf kt self -> wf kt (set_value v self).
Proof. rewrite !wf_unfold. done. Qed.

Lemma stored_at_with_child (self : trie) k c ks :
  stored_at (with_child self k c) ks =
  match ks with
  | [] => value self
  | k' :: ks' => if decide (k' = k) then stored_at c ks' else stored_at self ks
  end.
Proof.
  destruct ks as [|k' ks']; [done|].
  unfold stored_at at 1 3; simpl. rewrite dict_get_set.
  by destruct (decide (k' = k)).
Qed.

Lemma stored_at_set_value (self : trie) v ks :
  stored_at (set_value v self) ks =
  match ks with
  | [] => v
  | _ :: _ => stored_at self ks
  end.
Proof. by destruct ks. Qed.

Lemma find_loop_with_child (self : trie) k c ks :
  find_loop (with_child self k c) (k :: ks) = find_loop c ks.
Proof. simpl. rewrite dict_get_set, decide_True; done. Qed.

(** *** [__setitem__] *)

Lemma setitem_rec_cons (self : trie) ty k rest v :
  setitem_rec self ty (k :: rest) v =
  if decide (ty = key_type self) then
    match rest with
    | [] => (OK tt, with_child self k (set_value v (child_or_new self k)))
    | _ :: _ =>
        let (r, cur') := setitem_rec (child_or_new self k) ty rest v in
        (r, with_child self k cur')
    end
  else (Raise TypeError, self).
Proof.
  cbn [setitem_rec]. case_decide; [|done].
  unfold with_child, child_or_new.
  destruct (dict_get k (children self)) as [c|] eqn:Hk.
  - rewrite Hk. done.
  - assert (dict_get k (children self ++ [(k, new_Trie (key_type self))])
            = Some (new_Trie (key_type self))) as ->.
    { clear -Hk. induction (children self) as [|[k0 t0] d IHd]; simpl in *.
      - by rewrite decide_True.
      - destruct (decide (k = k0)); [done|auto]. }
    simpl. destruct rest as [|k1 rest]; [by rewrite dict_set_append|].
    destruct (setitem_rec _ ty (k1 :: rest) v) as [r cur'].
    by rewrite dict_set_append.
Qed.

Lemma setitem_rec_nil (self : trie) ty v :
  setitem_rec self ty [] v =
  if decide (ty = key_type self) then (Raise IndexError, self)
  else (Raise TypeError, self).
Proof. done. Qed.

Lemma setitem_rec_spec kt ks v : forall self : trie,
  wf kt self -> ks <> [] -> Forall (is_unit kt) ks ->
  exists self',
    setitem_rec self kt ks v = (OK tt, self') /\ wf kt self' /\
    forall ks', stored_at self' ks' = if decide (ks' = ks) then v else stored_at self ks'.
Proof.
  induction ks as [|k rest IH]; [done|]. intros self Hwf _ [Hk Hrest]%Forall_cons.
  rewrite setitem_rec_cons, decide_True by (by rewrite (wf_key_type _ _ Hwf)).
  pose proof (wf_child_or_new _ _ k Hwf) as Hcur.
  destruct rest as [|k1 rest].
  - eexists; split_and!; [done| |].
    + by apply wf_with_child, wf_set_value.
    + intros ks'. rewrite stored_at_with_child. destruct ks' as [|k' ks']; [done|].
      destruct (decide (k' = k)) as [->|Hne].
      * rewrite stored_at_set_value, stored_at_cons.
        destruct ks'; [by rewrite decide_True|]. by rewrite decide_False.
      * rewrite decide_False; [done|congruence].
  - destruct (IH (child_or_new self k) Hcur) as (cur' & -> & Hwf' & Hst); [done..|].
    eexists; split_and!; [done| |].
    + by apply wf_with_child.
    + intros ks'. rewrite stored_at_with_child. destruct ks' as [|k' ks']; [done|].
      destruct (decide (k' = k)) as [->|Hne].
      * rewrite Hst, stored_at_cons.
        destruct (decide (ks' = k1 :: rest)) as [->|Hne'].
        -- by rewrite decide_True.
        -- rewrite decide_False; [done|congruence].
      * rewrite decide_False; [done|congruence].
Qed.


Lemma stored_at_value_at (self : trie) ks :
  stored_at self ks = match value_at self ks with OK v => v | Raise _ => None end.
Proof. unfold stored_at, value_at. by destruct (find_loop self ks). Qed.

Lemma value_at_cons (self : trie) k ks :
  value_at self (k :: ks) =
  match dict_get k (children self) with
  | Some c => value_at c ks
  | None => Raise KeyError
  end.
Proof. unfold value_at; simpl. by destruct (dict_get k (children self)). Qed.

Lemma find_loop_raise (self : trie) ks e : find_loop self ks = Raise e -> e = KeyError.
Proof.
  revert self. induction ks as [|k ks IH]; intros self; simpl; [done|].
  destruct (dict_get k (children self)); [eauto|congruence].
Qed.

Lemma value_at_Some (self : trie) ks v :
  stored_at self ks = Some v <-> value_at self ks = OK (Some v).
Proof.
  rewrite stored_at_value_at. destruct (value_at self ks); split; congruence.
Qed.

Lemma setitem_rec_value_at kt ks v : forall self : trie,
  wf kt self -> ks <> [] -> value_at (setitem_rec self kt ks v).2 ks = OK v.
Proof.
  induction ks as [|k rest IH]; [done|]. intros self Hwf _.
  rewrite setitem_rec_cons, decide_True by (by rewrite (wf_key_type _ _ Hwf)).
  pose proof (wf_child_or_new _ _ k Hwf) as Hcur.
  destruct rest as [|k1 rest].
  - simpl. unfold value_at. by rewrite find_loop_with_child.
  - specialize (IH _ Hcur). destruct (setitem_rec _ kt (k1 :: rest) v) as [r cur'].
    cbn [snd] in *. unfold value_at in *. rewrite find_loop_with_child. by apply IH.
Qed.

(** *** [__delitem__] *)

Lemma store_value_spec kt ks v : forall self : trie,
  wf kt self -> (exists n, find_loop self ks = OK n) ->
  wf kt (store_value self ks v) /\
  forall ks', value_at (store_value self ks v) ks'
              = if decide (ks' = ks) then OK v else value_at self ks'.
Proof.
  induction ks as [|k ks IH]; intros self Hwf [n Hn]; cbn [store_value].
  - split; [by apply wf_set_value|]. intros [|k' ks']; [done|].
    by rewrite decide_False.
  - simpl in Hn. destruct (dict_get k (children self)) as [c|] eqn:Hk; [|done].
    destruct (wf_child _ _ _ _ Hwf Hk) as [Hc Hu].
    destruct (IH c Hc) as [Hwf' Hst]; [by eexists|].
    split; [by apply (wf_with_child kt self k)|].
    intros [|k' ks']; [done|].
    rewrite value_at_cons; simpl. rewrite dict_get_set.
    destruct (decide (k' = k)) as [->|Hne].
    + rewrite Hst, value_at_cons, Hk.
      destruct (decide (ks' = ks)) as [->|Hne'].
      * by rewrite decide_True.
      * rewrite decide_False; [done|congruence].
    + rewrite decide_False by congruence. by rewrite value_at_cons.
Qed.

(** *** The methods in terms of paths *)

Lemma find_trie_eq (self : trie) k :
  _find_trie self k =
  if decide (type_of k = key_type self) then find_loop self (units k)
  else Raise TypeError.
Proof. unfold _find_trie, _valid_key. by case_decide. Qed.

Lemma getitem_eq (self : trie) k :
  __getitem__ self k =
  if decide (type_of k = key_type self) then value_at self (units k)
  else Raise TypeError.
Proof. unfold __getitem__. rewrite find_trie_eq. by case_decide. Qed.

Lemma contains_eq (self : trie) k :
  __contains__ self k =
  if decide (type_of k = key_type self)
  then OK (bool_decide (is_Some (stored_at self (units k))))
  else Raise TypeError.
Proof.
  unfold __contains__. rewrite find_trie_eq. case_decide; [|done].
  unfold stored_at. destruct (find_loop self (units k)) as [n|e] eqn:Hf; simpl.
  - by destruct (value n).
  - by apply find_loop_raise in Hf as ->.
Qed.

Lemma delitem_eq (self : trie) k :
  __delitem__ self k =
  if decide (type_of k = key_type self) then
    match stored_at self (units k) with
    | Some _ => (OK tt, store_value self (units k) None)
    | None => (Raise KeyError, self)
    end
  else (Raise TypeError, self).
Proof.
  unfold __delitem__. rewrite find_trie_eq. case_decide; [|done].
  unfold stored_at. destruct (find_loop self (units k)) as [n|e] eqn:Hf; simpl.
  - by destruct (value n).
  - by apply find_loop_raise in Hf as ->.
Qed.


(** *** Iteration *)

Lemma py_add_glue (a b : key) : type_of a = type_of b -> py_add a b = OK (glue a b).
Proof. by destruct a, b. Qed.

Lemma type_of_glue (a b : key) : type_of (glue a b) = type_of a.
Proof. by destruct a, b. Qed.

Lemma type_of_join (a : key) ks : type_of (join a ks) = type_of a.
Proof.
  revert a. induction ks as [|k ks IH]; intros a; [done|].
  unfold join in *; simpl. by rewrite IH, type_of_glue.
Qed.

Lemma units_glue (a b : key) :
  type_of a = type_of b -> units (glue a b) = units a ++ units b.
Proof. destruct a, b; simpl; try done; intros _; by rewrite fmap_app. Qed.

Lemma units_unit kt (k : key) : is_unit kt k -> units k = [k].
Proof.
  intros [_ Hl]. destruct k as [[|c [|??]]|[|e [|??]]]; simpl in *; done.
Qed.

Lemma units_join (a : key) ks :
  Forall (is_unit (type_of a)) ks -> units (join a ks) = units a ++ ks.
Proof.
  revert a. induction ks as [|k ks IH]; intros a Hks; unfold join in *; simpl.
  - by rewrite app_nil_r.
  - apply Forall_cons in Hks as [Hk Hks].
    rewrite IH by (by rewrite type_of_glue).
    rewrite units_glue by (by destruct Hk).
    by rewrite (units_unit _ _ Hk), <-app_assoc.
Qed.

Lemma join_units (a b : key) : type_of a = type_of b -> join a (units b) = glue a b.
Proof.
  destruct a as [x|x], b as [y|y]; try done; intros _; simpl.
  - revert x. induction y as [|c y IH]; intros x; unfold join in *; simpl.
    + by rewrite app_nil_r.
    + rewrite IH. by rewrite <-app_assoc.
  - revert x. induction y as [|c y IH]; intros x; unfold join in *; simpl.
    + by rewrite app_nil_r.
    + rewrite IH. by rewrite <-app_assoc.
Qed.

Lemma join_empty_units (k : key) : join (empty_key (type_of k)) (units k) = k.
Proof. rewrite join_units; by destruct k. Qed.

Lemma units_empty_key kt : units (empty_key kt : key) = [].
Proof. by destruct kt. Qed.

Lemma type_of_empty_key kt : type_of (empty_key kt : key) = kt.
Proof. by destruct kt. Qed.

Lemma entries_unfold (t : trie) :
  entries t =
  match value t with Some v => [([], v)] | None => [] end
  ++ (children t ≫= fun kc => prod_map (cons kc.1) id <$> entries kc.2).
Proof.
  destruct t as [v kt d]; cbn [entries value children]. f_equal.
  induction d as [|[k c] d IHd]; [done|]. by rewrite IHd.
Qed.

Lemma recursive_generator_unfold (k : key) (t : trie) :
  recursive_generator k t =
  below ← (fix items (d : dict) : result (list (key * V)) :=
             match d with
             | [] => OK []
             | (k0, c) :: d' =>
                 key' ← py_add k k0;
                 here ← recursive_generator key' c;
                 there ← items d';
                 OK (here ++ there)
             end) (children t);
  OK (match value t with Some v => [(k, v)] | None => [] end ++ below).
Proof. by destruct t. Qed.

Lemma recursive_generator_entries kt : forall (t : trie) (k : key),
  wf kt t -> type_of k = kt ->
  recursive_generator k t = OK (prod_map (join k) id <$> entries t).
Proof.
  induction t as [v kt' d IH] using Trie_ind. intros k Hwf Hk.
  rewrite recursive_generator_unfold, entries_unfold.
  apply wf_unfold in Hwf as (_ & _ & Hall). cbn [value children] in *.
  rewrite fmap_app.
  assert ((fix items (d : dict) : result (list (key * V)) :=
             match d with
             | [] => OK []
             | (k0, c) :: d' =>
                 key' ← py_add k k0;
                 here ← recursive_generator key' c;
                 there ← items d';
                 OK (here ++ there)
             end) d
          = OK (prod_map (join k) id <$>
                  (d ≫= fun kc => prod_map (cons kc.1) id <$> entries kc.2))) as ->.
  { clear v. induction d as [|[k0 c] d IHd]; [done|].
    apply Forall_cons in IH as [IHc IH]. apply Forall_cons in Hall as [[Hu Hc] Hall].
    cbn [fst snd] in *.
    rewrite py_add_glue by (destruct Hu; congruence). cbn [mbind result_bind].
    rewrite IHc by (by rewrite ?type_of_glue). cbn [mbind result_bind].
    rewrite IHd by done. cbn [mbind result_bind].
    rewrite bind_cons, fmap_app. cbn [fst snd]. do 2 f_equal.
    rewrite <-list_fmap_compose. apply list_fmap_ext. by intros _ [p x] _. }
  cbn [mbind result_bind]. by destruct v.
Qed.

Lemma iter_entries kt (t : trie) :
  wf kt t -> __iter__ t = OK (prod_map (join (empty_key kt)) id <$> entries t).
Proof.
  intros Hwf. unfold __iter__. rewrite (wf_key_type _ _ Hwf).
  destruct kt;
    [by apply (recursive_generator_entries KStr)
    |by apply (recursive_generator_entries KTuple)].
Qed.

Lemma wf_find_loop kt ks : forall (t n : trie),
  wf kt t -> find_loop t ks = OK n -> wf kt n /\ Forall (is_unit kt) ks.
Proof.
  induction ks as [|k ks IH]; intros t n Hwf; simpl.
  - by intros [= <-].
  - destruct (dict_get k (children t)) as [c|] eqn:Hk; [|done]. intros Hn.
    destruct (wf_child _ _ _ _ Hwf Hk) as [Hc Hu].
    destruct (IH _ _ Hc Hn). split; [done|by constructor].
Qed.

Lemma elem_of_entries kt : forall (t : trie) ks v,
  wf kt t -> (ks, v) ∈ entries t <-> stored_at t ks = Some v.
Proof.
  induction t as [v0 kt' d IH] using Trie_ind. intros ks v Hwf.
  rewrite entries_unfold, elem_of_app, list_elem_of_bind. cbn [value children].
  pose proof Hwf as (_ & Hnd & Hall)%wf_unfold. cbn [children] in *.
  rewrite Forall_forall in IH, Hall.
  destruct ks as [|k ks].
  - unfold stored_at; simpl. split.
    + intros [Hv|([k c] & Hin & _)].
      * destruct v0; [by apply list_elem_of_singleton in Hv as [= ->]|].
        by apply elem_of_nil in Hv.
      * by apply list_elem_of_fmap in Hin as ([p x] & [= ? ?] & _).
    + intros ->. left. by apply list_elem_of_singleton.
  - rewrite stored_at_cons. unfold child_or_new. cbn [children key_type]. split.
    + intros [Hv|([k0 c] & Hin & Hd)].
      * destruct v0; [by apply list_elem_of_singleton in Hv|by apply elem_of_nil in Hv].
      * apply list_elem_of_fmap in Hin as ([p x] & [= -> -> ->] & Hin).
        cbn [fst snd] in *. rewrite (dict_get_elem _ _ _ Hnd Hd). simpl.
        apply (IH _ Hd); [|done]. by destruct (Hall _ Hd).
    + destruct (dict_get k d) as [c|] eqn:Hk; simpl; [|by rewrite stored_at_new].
      intros Hst. right. exists (k, c). apply dict_get_Some in Hk.
      split; [|done]. apply list_elem_of_fmap. exists (ks, v). split; [done|].
      apply (IH _ Hk); [|done]. by destruct (Hall _ Hk).
Qed.

Lemma stored_at_is_unit kt (t : trie) ks v :
  wf kt t -> stored_at t ks = Some v -> Forall (is_unit kt) ks.
Proof.
  unfold stored_at. intros Hwf. destruct (find_loop t ks) as [n|] eqn:Hn; [|done].
  intros _. by destruct (wf_find_loop _ _ _ _ Hwf Hn).
Qed.

(** What iteration yields: the keys of the trie's kind that hold a value. *)
Lemma elem_of_iter kt (t : trie) l k v :
  wf kt t -> __iter__ t = OK l ->
  (k, v) ∈ l <-> type_of k = kt /\ stored_at t (units k) = Some v.
Proof.
  intros Hwf. rewrite (iter_entries _ _ Hwf). intros [= <-].
  rewrite list_elem_of_fmap. split.
  - intros ([p x] & [= -> ->] & Hin).
    apply (elem_of_entries _ _ _ _ Hwf) in Hin.
    pose proof (stored_at_is_unit _ _ _ _ Hwf Hin) as Hp.
    rewrite type_of_join, type_of_empty_key. split; [done|].
    rewrite units_join by (by rewrite type_of_empty_key).
    by rewrite units_empty_key.
  - intros [<- Hst]. exists (units k, v). split.
    + simpl. by rewrite join_empty_units.
    + by apply (elem_of_entries (type_of k)).
Qed.


(** *** The methods on the tries the class builds *)

Lemma units_nonempty (k : key) : key_len k <> 0%nat -> units k <> [].
Proof. by rewrite <-units_nil. Qed.

Lemma setitem_ok kt (t : trie) (k : key) v :
  wf kt t -> type_of k = kt -> key_len k <> 0%nat ->
  exists t',
    __setitem__ t k v = (OK tt, t') /\ wf kt t' /\
    value_at t' (units k) = OK v /\
    forall ks, stored_at t' ks = if decide (ks = units k) then v else stored_at t ks.
Proof.
  intros Hwf <- Hlen. unfold __setitem__.
  destruct (setitem_rec_spec (type_of k) (units k) v t Hwf)
    as (t' & Hset & Hwf' & Hst); [by apply units_nonempty|apply units_is_unit|].
  exists t'. split_and!; [done..| |done].
  pose proof (setitem_rec_value_at (type_of k) (units k) v t Hwf
                (units_nonempty _ Hlen)) as Hv.
  by rewrite Hset in Hv.
Qed.

Lemma setitem_wrong_type (t : trie) (k : key) v :
  type_of k <> key_type t -> __setitem__ t k v = (Raise TypeError, t).
Proof.
  intros Hne. unfold __setitem__.
  destruct (units k); cbn [setitem_rec]; by rewrite decide_False.
Qed.

Lemma setitem_empty (t : trie) (k : key) v :
  type_of k = key_type t -> key_len k = 0%nat ->
  __setitem__ t k v = (Raise IndexError, t).
Proof.
  intros Hty Hlen%units_nil. unfold __setitem__.
  by rewrite Hlen, setitem_rec_nil, decide_True.
Qed.

(** What [__setitem__] does on every key: it raises [TypeError] on a key of
    the wrong type and [IndexError] on an empty key, leaving the trie as it
    was, and stores the value otherwise. *)
Lemma setitem_outcomes kt (t : trie) (k : key) v :
  wf kt t ->
  match fst (__setitem__ t k v) with
  | OK _ => type_of k = kt /\ key_len k <> 0%nat
  | Raise e =>
      snd (__setitem__ t k v) = t /\
      (e = TypeError /\ type_of k <> kt \/
       e = IndexError /\ type_of k = kt /\ key_len k = 0%nat)
  end.
Proof.
  intros Hwf. pose proof (wf_key_type _ _ Hwf) as Hkt.
  destruct (decide (type_of k = kt)) as [Hty|Hty].
  - destruct (decide (key_len k = 0%nat)) as [Hlen|Hlen].
    + rewrite setitem_empty by congruence. simpl. auto.
    + destruct (setitem_ok _ _ _ v Hwf Hty Hlen) as (t' & -> & _). done.
  - rewrite setitem_wrong_type by congruence. simpl. auto.
Qed.

Lemma delitem_ok kt (t : trie) (k : key) x :
  wf kt t -> type_of k = kt -> stored_at t (units k) = Some x ->
  exists t',
    __delitem__ t k = (OK tt, t') /\ wf kt t' /\
    forall ks, value_at t' ks = if decide (ks = units k) then OK None else value_at t ks.
Proof.
  intros Hwf Hty Hst. rewrite delitem_eq, decide_True, Hst
    by (by rewrite (wf_key_type _ _ Hwf)).
  eexists; split; [done|]. apply store_value_spec; [done|].
  unfold stored_at in Hst. destruct (find_loop t (units k)); [by eexists|done].
Qed.

Lemma getitem_other (t t' : trie) (k k' : key) v :
  key_type t' = key_type t ->
  (forall ks, value_at t' ks = if decide (ks = units k) then v else value_at t ks) ->
  k' <> k -> type_of k = key_type t ->
  __getitem__ t' k' = __getitem__ t k' /\ __contains__ t' k' = __contains__ t k'.
Proof.
  intros Hkt Hv Hne Hty. rewrite !getitem_eq, !contains_eq, Hkt.
  case_decide as Hty'; [|done].
  assert (value_at t' (units k') = value_at t (units k')) as Heq.
  { rewrite Hv, decide_False; [done|]. intros Hu. apply Hne.
    apply units_inj; congruence. }
  by rewrite !stored_at_value_at, Heq.
Qed.

(** What deleting a stored key does: the key is no longer contained, a
    second deletion raises [KeyError], every other key keeps its value, and
    [__getitem__] of the deleted key returns [None]. *)
Lemma delete_stored kt (t : trie) (k : key) :
  wf kt t -> __contains__ t k = OK true ->
  exists t',
    __delitem__ t k = (OK tt, t') /\ wf kt t' /\
    __contains__ t' k = OK false /\
    __getitem__ t' k = OK None /\
    __delitem__ t' k = (Raise KeyError, t') /\
    forall k', k' <> k ->
      __getitem__ t' k' = __getitem__ t k' /\ __contains__ t' k' = __contains__ t k'.
Proof.
  intros Hwf Hin. pose proof (wf_key_type _ _ Hwf) as Hkt.
  rewrite contains_eq in Hin. case_decide as Hty; [|done].
  injection Hin as Hin. apply bool_decide_eq_true in Hin as [x Hx].
  destruct (delitem_ok kt t k x) as (t' & Hdel & Hwf' & Hv); [done|congruence|done|].
  pose proof (wf_key_type _ _ Hwf') as Hkt'.
  assert (value_at t' (units k) = OK None) as Hk by (by rewrite Hv, decide_True).
  assert (stored_at t' (units k) = None) as Hs by (by rewrite stored_at_value_at, Hk).
  exists t'. split_and!; [done..| | | |].
  - by rewrite contains_eq, decide_True, Hs by congruence.
  - by rewrite getitem_eq, decide_True by congruence.
  - by rewrite delitem_eq, decide_True, Hs by congruence.
  - intros k' Hne. eapply getitem_other; [congruence|exact Hv|done|congruence].
Qed.


Lemma find_loop_app (self : trie) ks1 ks2 :
  find_loop self (ks1 ++ ks2) = n ← find_loop self ks1; find_loop n ks2.
Proof.
  revert self. induction ks1 as [|k ks1 IH]; intros self; simpl; [done|].
  destruct (dict_get k (children self)); [apply IH|done].
Qed.

Lemma stored_at_app (self n : trie) ks1 ks2 :
  find_loop self ks1 = OK n -> stored_at self (ks1 ++ ks2) = stored_at n ks2.
Proof. intros Hn. unfold stored_at. by rewrite find_loop_app, Hn. Qed.

Lemma stored_at_app_Some (self : trie) ks1 ks2 v :
  stored_at self (ks1 ++ ks2) = Some v -> exists n, find_loop self ks1 = OK n.
Proof.
  unfold stored_at. rewrite find_loop_app.
  destruct (find_loop self ks1); [by eexists|done].
Qed.

Lemma getitem_Some (self : trie) k v :
  __getitem__ self k = OK (Some v) <->
  type_of k = key_type self /\ stored_at self (units k) = Some v.
Proof.
  rewrite getitem_eq, value_at_Some. case_decide; [tauto|]. split; [done|tauto].
Qed.

Lemma contains_true (self : trie) k :
  __contains__ self k = OK true <-> exists v, __getitem__ self k = OK (Some v).
Proof.
  rewrite contains_eq. setoid_rewrite getitem_Some. case_decide as Hty.
  - split.
    + intros [= [v Hv]%bool_decide_eq_true]. by exists v.
    + intros (v & _ & Hv). f_equal. apply bool_decide_eq_true. by exists v.
  - split; [done|]. by intros (v & ? & _).
Qed.

Lemma valueless_entries (t : trie) : valueless t <-> entries t = [].
Proof.
  induction t as [v kt d IH] using Trie_ind.
  rewrite valueless_unfold, entries_unfold. cbn [value children].
  split.
  - intros [-> Hd]. simpl. induction d as [|[k c] d IHd]; [done|].
    apply Forall_cons in IH as [IHc IH]. apply Forall_cons in Hd as [Hc Hd].
    rewrite bind_cons, IHd by done. simpl in *.
    apply IHc in Hc as ->. done.
  - intros [Hv Hd]%app_eq_nil. split; [by destruct v|].
    induction d as [|[k c] d IHd]; [constructor|].
    apply Forall_cons in IH as [IHc IH]. rewrite bind_cons in Hd.
    apply app_eq_nil in Hd as [Hc Hd]. constructor; [|by apply IHd].
    apply IHc. simpl in *. by apply fmap_nil_inv in Hc.
Qed.


Lemma wf_after_call kt (t : trie) (c : call) : wf kt t -> wf kt (after_call t c).
Proof.
  intros Hwf. destruct c as [k v|k]; cbn [after_call].
  - pose proof (setitem_outcomes kt t k v Hwf) as Hout.
    destruct (__setitem__ t k v) as [[[]|e] t'] eqn:Hset; simpl in *.
    + destruct Hout as [Hty Hlen].
      destruct (setitem_ok kt t k v Hwf Hty Hlen) as (t2 & Hset' & Hwf' & _).
      congruence.
    + by destruct Hout as [-> _].
  - rewrite delitem_eq. case_decide as Hty; [|done].
    destruct (stored_at t (units k)) as [x|] eqn:Hs; [|done].
    destruct (delitem_ok kt t k x Hwf) as (t' & Hdel & Hwf' & _);
      [by rewrite (wf_key_type _ _ Hwf) in Hty|done|].
    rewrite delitem_eq, decide_True, Hs in Hdel by done.
    by injection Hdel as <-.
Qed.

Lemma wf_after_calls kt (calls : list call) : forall t : trie,
  wf kt t -> wf kt (foldl after_call t calls).
Proof.
  induction calls as [|c calls IH]; intros t Hwf; simpl; [done|].
  by apply IH, wf_after_call.
Qed.

(** X6: the shape the class keeps: in every trie built from [Trie(kt)] by
    assignments and deletions, whether they return or raise, every node has
    the key type [kt] and every dictionary key is a one-character string
    (for [str]) or a one-element tuple (for [tuple]), each at most once. *)
Lemma wf_built kt (calls : list call) : wf kt (built kt calls : trie).
Proof.
  apply wf_after_calls, wf_new.
Qed.

End TrieFacts.

(** ** The trie as a key/value store *)

Section TrieClaims.
Context {E : Type} `{EqDecision E}.
Context {V : Type}.

#[local] Abbreviation key := (@pykey E).
#[local] Abbreviation trie := (@Trie E V).

(** C1, amended: for every trie, every non-empty key [k] of the trie's
    kind and every value [v] other than [None], [set(k, v)] succeeds and
    afterwards [get(k)] returns [v] and [contains(k)] returns [True]. *)
Theorem set_get_roundtrip kt (t : trie) (k : key) (v : V) :
  wf kt t -> type_of k = kt -> key_len k <> 0%nat ->
  exists t',
    __setitem__ t k (Some v) = (OK tt, t') /\ wf kt t' /\
    __getitem__ t' k = OK (Some v) /\ __contains__ t' k = OK true.
Proof.
  intros Hwf Hty Hlen.
  destruct (setitem_ok kt t k (Some v) Hwf Hty Hlen) as (t' & Hset & Hwf' & Hv & _).
  pose proof (wf_key_type _ _ Hwf') as Hkt'.
  exists t'. split_and!; [done..| |].
  - by rewrite getitem_eq, decide_True by congruence.
  - rewrite contains_eq, decide_True by congruence.
    by rewrite stored_at_value_at, Hv.
Qed.

(** C7: a keyed operation called with a key whose type is not the trie's
    raises [TypeError] (and [set] and [delete] leave the trie as it was);
    [contains] with a key of the trie's type returns a boolean, [False] when
    the path of the key is missing. *)
Theorem kind_enforcement (t : trie) (k : key) (v : option V) :
  (type_of k <> key_type t ->
   __setitem__ t k v = (Raise TypeError, t) /\
   __getitem__ t k = Raise TypeError /\
   __delitem__ t k = (Raise TypeError, t) /\
   __contains__ t k = Raise TypeError) /\
  (type_of k = key_type t ->
   (exists b, __contains__ t k = OK b) /\
   (_find_trie t k = Raise KeyError -> __contains__ t k = OK false)).
Proof.
  split; intros Hty.
  - rewrite setitem_wrong_type, getitem_eq, delitem_eq, contains_eq by done.
    by rewrite !decide_False.
  - rewrite contains_eq, decide_True by done. split; [by eexists|].
    rewrite find_trie_eq, decide_True by done. intros Hf.
    unfold stored_at. by rewrite Hf.
Qed.

(** C9: [None] is the absent-value mark.  For every trie and non-empty key
    [k] of the trie's kind, [set(k, None)] succeeds and creates the path of
    [k], after which [contains(k)] is [False], [get(k)] returns [None],
    [delete(k)] raises [KeyError] and iteration does not yield [k]. *)
Theorem set_None_is_unset kt (t : trie) (k : key) :
  wf kt t -> type_of k = kt -> key_len k <> 0%nat ->
  exists t',
    __setitem__ t k None = (OK tt, t') /\
    (exists n, _find_trie t' k = OK n) /\
    __contains__ t' k = OK false /\
    __getitem__ t' k = OK None /\
    __delitem__ t' k = (Raise KeyError, t') /\
    exists l, __iter__ t' = OK l /\ k ∉ l.*1.
Proof.
  intros Hwf Hty Hlen.
  destruct (setitem_ok kt t k None Hwf Hty Hlen) as (t' & Hset & Hwf' & Hv & _).
  pose proof (wf_key_type _ _ Hwf') as Hkt'.
  assert (stored_at t' (units k) = None) as Hs by (by rewrite stored_at_value_at, Hv).
  exists t'. split_and!; [done| | | | |].
  - rewrite find_trie_eq, decide_True by congruence.
    unfold value_at in Hv. destruct (find_loop t' (units k)); [by eexists|done].
  - by rewrite contains_eq, decide_True, Hs by congruence.
  - by rewrite getitem_eq, decide_True by congruence.
  - by rewrite delitem_eq, decide_True, Hs by congruence.
  - eexists. split; [by apply iter_entries|].
    intros ([k' x] & -> & Hin)%list_elem_of_fmap.
    eapply elem_of_iter in Hin as [_ Hx]; [|done|by apply iter_entries].
    simpl in Hs. congruence.
Qed.

End TrieClaims.

Lemma wf_bat_trie : wf KStr bat_trie.
Proof.
  unfold bat_trie.
  destruct (setitem_ok (E:=nat) KStr (new_Trie KStr) (Str (lit "bat")) (Some 1))
    as (t' & -> & Hwf & _); [apply wf_new|done..].
Qed.

(** Witness of C1, on the docstring's trie. *)
Lemma set_get_roundtrip_witness :
  exists t',
    __setitem__ bat_trie (Str (lit "bar")) (Some 2) = (OK tt, t') /\ wf KStr t' /\
    __getitem__ t' (Str (lit "bar")) = OK (Some 2) /\
    __contains__ t' (Str (lit "bar")) = OK true.
Proof.
  apply (set_get_roundtrip KStr bat_trie (Str (lit "bar")) 2);
    [exact wf_bat_trie | reflexivity | simpl; lia].
Defined.

(** Counterexample to C1 as stated: after [t['a'] = None] on a new trie,
    ['a' in t] is [False]. *)
Lemma roundtrip_fails_for_None :
  exists t' : @Trie nat Z,
    __setitem__ (new_Trie KStr) (Str (lit "a")) None = (OK tt, t') /\
    __getitem__ t' (Str (lit "a")) = OK None /\
    __contains__ t' (Str (lit "a")) = OK false.
Proof. eexists. split_and!; reflexivity. Qed.

(** Witness of C7: a tuple key on a string trie, and a missing string. *)
Lemma kind_enforcement_witness :
  (__setitem__ bat_trie (Tup [1%nat]) (Some 1) = (Raise TypeError, bat_trie) /\
   __getitem__ bat_trie (Tup [1%nat]) = Raise TypeError /\
   __delitem__ bat_trie (Tup [1%nat]) = (Raise TypeError, bat_trie) /\
   __contains__ bat_trie (Tup [1%nat]) = Raise TypeError) /\
  ((exists b, __contains__ bat_trie (Str (lit "bank")) = OK b) /\
   __contains__ bat_trie (Str (lit "bank")) = OK false).
Proof.
  split.
  - apply (proj1 (kind_enforcement bat_trie (Tup [1%nat]) (Some 1))). discriminate.
  - destruct (proj2 (kind_enforcement bat_trie (Str (lit "bank")) None)) as [Hb Hf];
      [reflexivity|].
    split; [exact Hb | apply Hf; reflexivity].
Defined.

(** Witness of C9. *)
Lemma set_None_is_unset_witness :
  exists t',
    __setitem__ bat_trie (Str (lit "bat")) None = (OK tt, t') /\
    (exists n, _find_trie t' (Str (lit "bat")) = OK n) /\
    __contains__ t' (Str (lit "bat")) = OK false /\
    __getitem__ t' (Str (lit "bat")) = OK None /\
    __delitem__ t' (Str (lit "bat")) = (Raise KeyError, t') /\
    exists l, __iter__ t' = OK l /\ Str (lit "bat") ∉ l.*1.
Proof.
  apply (set_None_is_unset KStr bat_trie (Str (lit "bat")));
    [exact wf_bat_trie | reflexivity | simpl; lia].
Defined.

(** C2, at the docstring's example: after [t['bat'] = 1] and
    [del t['bat']], ['bat' in t] is [False] and a second [del] raises
    [KeyError], but [t['bat']] returns [None] instead of raising
    [KeyError]. *)
Theorem get_after_delete_returns_None :
  exists t1 t2 : @Trie nat Z,
    __setitem__ (new_Trie KStr) (Str (lit "bat")) (Some 1) = (OK tt, t1) /\
    __delitem__ t1 (Str (lit "bat")) = (OK tt, t2) /\
    __contains__ t2 (Str (lit "bat")) = OK false /\
    __delitem__ t2 (Str (lit "bat")) = (Raise KeyError, t2) /\
    __getitem__ t2 (Str (lit "bat")) = OK None /\
    __getitem__ t2 (Str (lit "bat")) <> Raise KeyError.
Proof. eexists _, _. split_and!; [reflexivity..|discriminate]. Qed.

(** C8, at the empty key: [t[''] = 1] on a new string trie passes the type
    check and raises [IndexError], leaving the trie as it was. *)
Theorem set_empty_key_raises_IndexError :
  _valid_key (new_Trie KStr : @Trie nat Z) (Str []) = OK tt /\
  __setitem__ (new_Trie KStr : @Trie nat Z) (Str []) (Some 1)
  = (Raise IndexError, new_Trie KStr).
Proof. split; reflexivity. Qed.

(** ** The edits of a word *)

Lemma split_at (p : str) i :
  (i < length p)%nat -> exists c, p = take i p ++ c :: drop (S i) p /\ p !! i = Some c.
Proof.
  intros [c Hc]%lookup_lt_is_Some. exists c. by rewrite take_drop_middle.
Qed.

Lemma slice_one (p : str) i c : p !! i = Some c -> slice i (i + 1) p = [c].
Proof.
  intros Hc. unfold slice. replace (i + 1 - i)%nat with 1%nat by lia.
  by rewrite (drop_S _ _ _ Hc).
Qed.

Lemma split_at_two (p : str) i j :
  (i < j)%nat -> (j < length p)%nat ->
  exists c d,
    p = take i p ++ c :: slice (i + 1) j p ++ d :: drop (j + 1) p /\
    p !! i = Some c /\ p !! j = Some d.
Proof.
  intros Hij Hj. destruct (split_at p i) as (c & Hp & Hc); [lia|].
  destruct (split_at p j) as (d & _ & Hd); [lia|].
  exists c, d. split; [|done]. rewrite Hp at 1. do 2 f_equal.
  unfold slice. rewrite <-(take_drop (j - (i + 1)) (drop (S i) p)) at 1.
  replace (i + 1)%nat with (S i) by lia. f_equal.
  rewrite drop_drop. replace (S i + (j - S i))%nat with j by lia.
  rewrite (drop_S _ _ _ Hd). by replace (j + 1)%nat with (S j) by lia.
Qed.

(** Every word at one edit of [p] is generated. *)
Lemma edit1_generated (p w : str) : edit1 p w -> w ∈ get_edits_str p.
Proof.
  unfold get_edits_str. rewrite !elem_of_app.
  intros [a b c -> Hc|a b c ->|a b c c' -> Hc|a b c d ->].
  - left. unfold get_single_insertions.
    apply list_elem_of_bind. exists (length a). split; [|apply elem_of_seq; rewrite length_app; lia].
    apply list_elem_of_bind. exists c. split; [|done].
    rewrite take_app_length, drop_app_length. by apply list_elem_of_singleton.
  - right; left. unfold get_single_deletions.
    apply list_elem_of_bind. exists (length a).
    split; [|apply elem_of_seq; rewrite length_app; simpl; lia].
    rewrite take_app_length. replace (length a + 1)%nat with (S (length a)) by lia.
    rewrite drop_app, drop_ge, Nat.sub_succ_l, Nat.sub_diag by lia. simpl.
    by apply list_elem_of_singleton.
  - right; right; left. unfold get_single_replacement.
    apply list_elem_of_bind. exists (length a).
    split; [|apply elem_of_seq; rewrite length_app; simpl; lia].
    apply list_elem_of_bind. exists c'. split; [|done].
    rewrite take_app_length. replace (length a + 1)%nat with (S (length a)) by lia.
    rewrite drop_app, drop_ge, Nat.sub_succ_l, Nat.sub_diag by lia. simpl.
    by apply list_elem_of_singleton.
  - right; right; right. unfold get_two_char_transpose.
    apply list_elem_of_bind. exists (length a).
    split; [|apply elem_of_seq; rewrite length_app; simpl; lia].
    apply list_elem_of_bind. exists (length a + 1)%nat.
    split; [|apply elem_of_seq; rewrite length_app; simpl; lia].
    rewrite take_app_length.
    rewrite (slice_one _ (length a) c)
      by (by rewrite lookup_app_r, Nat.sub_diag by lia).
    rewrite (slice_one _ (length a + 1) d)
      by (rewrite lookup_app_r by lia;
          by replace (length a + 1 - length a)%nat with 1%nat by lia).
    unfold slice. rewrite Nat.sub_diag, take_0.
    replace (length a + 1 + 1)%nat with (length a + 2)%nat by lia.
    rewrite drop_app, drop_ge by lia.
    replace (length a + 2 - length a)%nat with 2%nat by lia. simpl.
    by apply list_elem_of_singleton.
Qed.

(** A generated word is at one edit of [p], or exchanges two characters
    of [p] that are not adjacent. *)
Lemma generated_edit1_or_far_swap (p w : str) :
  w ∈ get_edits_str p -> edit1 p w \/ far_swap p w.
Proof.
  unfold get_edits_str. rewrite !elem_of_app. intros [Hw|[Hw|[Hw|Hw]]].
  - left. apply list_elem_of_bind in Hw as (i & Hw & _).
    apply list_elem_of_bind in Hw as (c & ->%list_elem_of_singleton & Hc).
    apply edit1_insert; [by rewrite take_drop|done].
  - left. apply list_elem_of_bind in Hw as (i & ->%list_elem_of_singleton & Hi).
    apply elem_of_seq in Hi. destruct (split_at p i) as (c & Hp & _); [lia|].
    replace (i + 1)%nat with (S i) by lia. by eapply edit1_delete.
  - left. apply list_elem_of_bind in Hw as (i & Hw & Hi).
    apply list_elem_of_bind in Hw as (c' & ->%list_elem_of_singleton & Hc).
    apply elem_of_seq in Hi. destruct (split_at p i) as (c & Hp & _); [lia|].
    replace (i + 1)%nat with (S i) by lia. by eapply edit1_replace.
  - apply list_elem_of_bind in Hw as (i & Hw & Hi).
    apply list_elem_of_bind in Hw as (j & ->%list_elem_of_singleton & Hj).
    apply elem_of_seq in Hi, Hj.
    destruct (split_at_two p i j) as (c & d & Hp & Hc & Hd); [lia..|].
    rewrite (slice_one _ _ _ Hc), (slice_one _ _ _ Hd). simpl.
    destruct (slice (i + 1) j p) as [|x m] eqn:Hm.
    + left. simpl in *. by eapply edit1_transpose.
    + right. by eapply (far_swap_intro p _ _ c d (x :: m)).
Qed.

(** C4, at the word [abc]: [get_two_char_transpose] exchanges the first and
    the last character, which are not adjacent, so [get_edits] yields
    [cba], a word that is not at one edit of [abc]. *)
Theorem transpose_exchanges_distant_characters :
  lit "cba" ∈ get_two_char_transpose (lit "abc") /\
  get_edits (E:=nat) (Str (lit "abc")) = OK (Str <$> get_edits_str (lit "abc")) /\
  lit "cba" ∈ get_edits_str (lit "abc") /\
  ~ edit1 (lit "abc") (lit "cba").
Proof.
  split_and!.
  - vm_compute. do 1 right. left.
  - reflexivity.
  - unfold get_edits_str. rewrite !elem_of_app. do 3 right.
    vm_compute. do 1 right. left.
  - intros Hed.
    inversion Hed as [a b c Hp Hc Hw|a b c Hp Hw|a b c c' Hp Hc Hw|a b c d Hp Hw];
      vm_compute in Hp, Hw;
      repeat (destruct a as [|? a]; simpl in *; simplify_eq).
Qed.

(** ** Ranking *)

Lemma elem_of_range_down (m i : Z) : i ∈ range_down m <-> 1 <= i <= m.
Proof.
  unfold range_down. rewrite list_elem_of_fmap. split.
  - intros (k & -> & Hk%elem_of_seq). lia.
  - intros Hi. exists (Z.to_nat (m - i)). split; [lia|]. apply elem_of_seq. lia.
Qed.

Lemma range_down_sorted (m : Z) : StronglySorted (fun i j => j < i) (range_down m).
Proof.
  unfold range_down. generalize (Z.to_nat m) as n. intros n.
  assert (forall a, StronglySorted (fun i j => j < i)
                      (map (fun i => m - Z.of_nat i) (seq a n))) as Hs; [|apply Hs].
  induction n as [|n IH]; intros a; simpl; constructor; [apply IH|].
  apply Forall_forall. intros j (k & -> & Hk%elem_of_seq)%list_elem_of_fmap. lia.
Qed.

Lemma cap_app {A} mc len (a b : list A) :
  cap mc len (a ++ b) = cap mc len a ++ cap mc (len + length (cap mc len a)) b.
Proof.
  destruct mc as [n|]; simpl; [|done].
  rewrite take_app. f_equal. rewrite length_take.
  f_equal. lia.
Qed.

Lemma fst_pair_fmap {A B} (i : B) (l : list A) : ((fun w => (w, i)) <$> l).*1 = l.
Proof. induction l as [|x l IH]; [done|]. rewrite !fmap_cons. by f_equal. Qed.

Section RankingFacts.
Context {E : Type} `{EqDecision E}.
Variable set_iter : forall A : Type, list A -> list A.
Hypothesis set_iter_perm : forall (A : Type) (l : list A), set_iter A l ≡ₚ l.

#[local] Abbreviation key := (@pykey E).

Lemma elem_of_set_add {A} `{EqDecision A} (x y : A) (a : list A) :
  y ∈ set_add x a <-> y = x \/ y ∈ a.
Proof.
  unfold set_add. case_decide as Hx.
  - split; [auto|]. by intros [->|?].
  - rewrite elem_of_app, list_elem_of_singleton. tauto.
Qed.

(** *** The first loop *)

Lemma tallied_empty : tallied (E:=E) (∅, None) [].
Proof.
  split_and!; simpl; [|done|done].
  intros c w. unfold bucket. rewrite lookup_empty. simpl.
  split; intros ?%elem_of_nil; done.
Qed.

Lemma tallied_tally st seen (w : key) c :
  tallied st seen -> tallied (tally st w c) (seen ++ [(w, c)]).
Proof.
  intros (Hb & Hn & Hm). destruct st as [fm mx]. unfold tally; simpl in *.
  split_and!; simpl.
  - intros c' w'. rewrite elem_of_app, list_elem_of_singleton, <-Hb.
    unfold bucket. destruct (fm !! c) as [ws|] eqn:Hc.
    + destruct (decide (c' = c)) as [->|Hne].
      * rewrite lookup_insert_eq, Hc. simpl. rewrite elem_of_set_add.
        split; [intros [->|?]; auto|]. intros [?|[= -> ]]; auto.
      * rewrite lookup_insert_ne by done. split; [auto|].
        intros [?|[= -> ->]]; done.
    + destruct (decide (c' = c)) as [->|Hne].
      * rewrite lookup_insert_eq, Hc. simpl. rewrite list_elem_of_singleton.
        split; [intros ->; auto|]. intros [?%elem_of_nil|[= ->]]; done.
      * rewrite lookup_insert_ne by done. split; [auto|].
        intros [?|[= -> ->]]; done.
  - split.
    + destruct mx as [m|]; [|done]. by case_match.
    + intros Heq. by apply app_eq_nil in Heq as [_ ?].
  - intros m Hmx w' c' [Hin|[= Hw' Hc']%list_elem_of_singleton]%elem_of_app Hpos.
    + destruct mx as [m0|].
      * specialize (Hm m0 eq_refl _ _ Hin Hpos).
        destruct (bool_decide (m0 = 0) || bool_decide (m0 < c)) eqn:Hcmp;
          injection Hmx as <-; [|done].
        apply orb_true_iff in Hcmp as [?%bool_decide_eq_true|?%bool_decide_eq_true]; lia.
      * destruct Hn as [Hn _]. rewrite Hn in Hin by done. by apply elem_of_nil in Hin.
    + subst w' c'. destruct mx as [m0|]; [|injection Hmx as <-; lia].
      destruct (bool_decide (m0 = 0) || bool_decide (m0 < c)) eqn:Hcmp;
        injection Hmx as <-; [lia|].
      apply orb_false_iff in Hcmp as [?%bool_decide_eq_false ?%bool_decide_eq_false]. lia.
Qed.

Lemma tallied_foldl (es : list (key * Z)) : forall st seen,
  tallied st seen ->
  tallied (foldl (fun st e => tally st e.1 e.2) st es) (seen ++ es).
Proof.
  induction es as [|[w c] es IH]; intros st seen Hst; simpl.
  - by rewrite app_nil_r.
  - replace (seen ++ (w, c) :: es) with ((seen ++ [(w, c)]) ++ es)
      by (by rewrite <-app_assoc).
    apply IH. by apply tallied_tally.
Qed.


(** *** The second loop *)

Lemma append_words_spec (mk : key -> result key) (g : key -> key) mc ws :
  (forall w, w ∈ ws -> mk w = OK (g w)) ->
  forall el, append_words mk mc ws el = OK (el ++ (g <$> cap mc (length el) ws)).
Proof.
  induction ws as [|w ws IH]; intros Hmk el; cbn [append_words].
  - destruct mc; simpl; by rewrite ?take_nil, app_nil_r.
  - unfold room. destruct mc as [n|].
    + case_bool_decide as Hn.
      * rewrite Hmk by left. cbn [mbind result_bind].
        rewrite IH by (intros; apply Hmk; by right).
        rewrite length_app, <-app_assoc. simpl. do 2 f_equal.
        replace (Z.to_nat (n - Z.of_nat (length el)))
          with (S (Z.to_nat (n - Z.of_nat (length el + 1)))) by lia.
        done.
      * simpl. replace (Z.to_nat (n - Z.of_nat (length el))) with 0%nat by lia.
        by rewrite app_nil_r.
    + rewrite Hmk by left. cbn [mbind result_bind].
      rewrite IH by (intros; apply Hmk; by right).
      by rewrite <-app_assoc.
Qed.

Lemma ranked_cons fm i range :
  ranked set_iter fm (i :: range) =
  ((fun w : key => (w, i)) <$>
     match fm !! i with Some ws => set_iter _ ws | None => [] end)
  ++ ranked set_iter fm range.
Proof. done. Qed.

Lemma append_buckets_spec (mk : key -> result key) (g : key -> key) mc fm range :
  (forall w i, (w, i) ∈ ranked set_iter fm range -> mk w = OK (g w)) ->
  forall el,
    append_buckets set_iter mk mc fm range el
    = OK (el ++ (g <$> cap mc (length el) (ranked set_iter fm range).*1)).
Proof.
  induction range as [|i range IH]; intros Hmk el; cbn [append_buckets].
  - destruct mc; simpl; by rewrite ?take_nil, app_nil_r.
  - rewrite ranked_cons in *. rewrite fmap_app, cap_app, fmap_app.
    assert (forall w j, (w, j) ∈ ranked set_iter fm range -> mk w = OK (g w)) as Hmk'.
    { intros w j Hin. apply (Hmk w j), elem_of_app. by right. }
    destruct (fm !! i) as [ws|] eqn:Hi.
    + rewrite fst_pair_fmap, (append_words_spec mk g).
      2:{ intros w Hw. apply (Hmk w i), elem_of_app. left.
          apply list_elem_of_fmap. by exists w. }
      cbn [mbind result_bind]. rewrite IH by done.
      by rewrite length_app, length_fmap, app_assoc.
    + rewrite IH by done. rewrite !fmap_nil.
      assert (cap mc (length el) (@nil key) = []) as ->
        by (destruct mc; simpl; by rewrite ?take_nil).
      simpl. by rewrite Nat.add_0_r.
Qed.

Lemma elem_of_ranked st seen range (w : key) i :
  tallied st seen ->
  (w, i) ∈ ranked set_iter st.1 range <-> i ∈ range /\ (w, i) ∈ seen.
Proof.
  intros (Hb & _). rewrite <-Hb. unfold ranked, bucket.
  rewrite list_elem_of_bind. split.
  - intros (j & (w' & [= <- <-] & Hw)%list_elem_of_fmap & Hj). split; [done|].
    destruct (st.1 !! i) as [ws|]; simpl; [|by apply elem_of_nil in Hw].
    by rewrite set_iter_perm in Hw.
  - intros [Hi Hw]. exists i. split; [|done]. apply list_elem_of_fmap.
    exists w. split; [done|].
    destruct (st.1 !! i) as [ws|]; simpl in *; [|done].
    by rewrite set_iter_perm.
Qed.

Lemma ranked_sorted (fm : gmap Z (list key)) range :
  StronglySorted (fun i j => j < i) range ->
  StronglySorted (fun p q : key * Z => q.2 <= p.2) (ranked set_iter fm range).
Proof.
  induction 1 as [|i range Hs IH Hall]; [constructor|].
  rewrite ranked_cons. apply StronglySorted_app_2; [| |done].
  - intros p q (w & -> & _)%list_elem_of_fmap Hq. simpl.
    unfold ranked in Hq. apply list_elem_of_bind in Hq as (j & Hq & Hj).
    apply list_elem_of_fmap in Hq as (w' & -> & _). simpl.
    rewrite Forall_forall in Hall. specialize (Hall _ Hj). lia.
  - generalize (match fm !! i with Some ws => set_iter key ws | None => [] end).
    intros ws. induction ws as [|w ws IHws]; simpl; constructor; [done|].
    apply Forall_forall. by intros q (w' & -> & _)%list_elem_of_fmap.
Qed.

(** A word that the second loop keeps has a frequency at least that of a
    word it leaves out. *)
Lemma cap_ranked_top (fm : gmap Z (list key)) range mc len (x y : key * Z) :
  StronglySorted (fun i j => j < i) range ->
  x ∈ cap mc len (ranked set_iter fm range) ->
  y ∈ ranked set_iter fm range ->
  y.1 ∉ (cap mc len (ranked set_iter fm range)).*1 ->
  y.2 <= x.2.
Proof.
  intros Hs%(ranked_sorted fm) Hx Hy Hny. destruct mc as [n|]; simpl in *.
  - rewrite <-(take_drop (Z.to_nat (n - Z.of_nat len))) in Hs, Hy.
    apply elem_of_app in Hy as [Hy|Hy].
    + destruct Hny. apply list_elem_of_fmap. by exists y.
    + by apply (StronglySorted_app_1_elem_of _ _ _ x y Hs).
  - destruct Hny. apply list_elem_of_fmap. by exists y.
Qed.

Lemma cap_fmap {A B} (f : A -> B) mc len (l : list A) :
  cap mc len (f <$> l) = f <$> cap mc len l.
Proof. destruct mc; simpl; [by rewrite fmap_take|done]. Qed.

Lemma cap_subseteq {A} mc len (l : list A) x : x ∈ cap mc len l -> x ∈ l.
Proof.
  destruct mc; simpl; [|done]. intros (i & Hi & _)%elem_of_take.
  by eapply list_elem_of_lookup_2.
Qed.


(** *** [autocomplete] *)

Lemma py_add_raise (a b : key) e : py_add a b = Raise e -> e = TypeError.
Proof. destruct a, b; simpl; congruence. Qed.

(** The second loop raises nothing but [TypeError]. *)
Lemma emit_raise (mk : key -> result key) mc st el e :
  (forall w e, mk w = Raise e -> e = TypeError) ->
  emit set_iter mk mc st el = Raise e -> e = TypeError.
Proof.
  intros Hmk. unfold emit. destruct st.2 as [m|]; [|by intros [= <-]].
  generalize (range_down m). intros r. revert el.
  induction r as [|i r IHr]; intros el; cbn [append_buckets]; [done|].
  destruct (st.1 !! i) as [ws|]; [|by apply IHr].
  generalize (set_iter key ws). intros ws'. revert el.
  induction ws' as [|w ws' IHw]; intros el; cbn [append_words mbind result_bind];
    [by apply IHr|].
  destruct (room mc el); [|by apply IHr].
  destruct (mk w) as [x|e'] eqn:Hadd; cbn [mbind result_bind]; [by apply IHw|].
  intros [= <-]. by eapply Hmk.
Qed.


Lemma emit_spec (mk : key -> result key) (g : key -> key) mc st seen el m :
  tallied st seen -> st.2 = Some m ->
  (forall w i, (w, i) ∈ seen -> mk w = OK (g w)) ->
  emit set_iter mk mc st el
  = OK (el ++ (g <$> (cap mc (length el) (ranked set_iter st.1 (range_down m))).*1)).
Proof.
  intros Hst Hm Hmk. unfold emit. rewrite Hm.
  rewrite (append_buckets_spec mk g), cap_fmap; [done|].
  intros w i [_ Hin]%(elem_of_ranked _ seen); [|done]. by eapply Hmk.
Qed.

Lemma starts_with_glue (prefix y : key) :
  starts_with prefix y <-> exists w, type_of w = type_of prefix /\ y = glue prefix w.
Proof.
  unfold starts_with. split; intros (w & Hw); exists w.
  - destruct prefix, w; simpl in *; by simplify_eq.
  - destruct Hw as [Hty ->]. by apply py_add_glue.
Qed.

Lemma getitem_glue kt (trie t : @Trie E Z) (prefix w : key) f :
  wf kt trie -> find_loop trie (units prefix) = OK t ->
  type_of prefix = kt -> type_of w = kt ->
  __getitem__ trie (glue prefix w) = OK (Some f) <-> stored_at t (units w) = Some f.
Proof.
  intros Hwf Hf Htp Htw. rewrite getitem_Some, type_of_glue, units_glue by congruence.
  rewrite (stored_at_app _ _ _ _ Hf), (wf_key_type _ _ Hwf). tauto.
Qed.


Lemma autocomplete_absent (trie : @Trie E Z) (prefix : key) mc :
  _find_trie trie prefix = Raise KeyError ->
  autocomplete set_iter trie prefix mc = OK [].
Proof. intros Hf. unfold autocomplete. by rewrite Hf. Qed.


(** *** [autocomplete] without a stored completion *)



Lemma autocomplete_OK_type (trie : @Trie E Z) (prefix : key) mc l :
  autocomplete set_iter trie prefix mc = OK l -> type_of prefix = key_type trie.
Proof.
  unfold autocomplete. rewrite find_trie_eq. by case_decide.
Qed.

(** *** [autocorrect] *)

Lemma tally_edits_spec (trie : @Trie E Z) used words : forall st,
  (forall w, w ∈ words -> type_of w = key_type trie) ->
  tally_edits trie used words st
  = OK (foldl (fun st e => tally st e.1 e.2) st (omap (valid_edit trie used) words)).
Proof.
  induction words as [|w words IH]; intros st Hty; [done|].
  cbn [tally_edits omap list_omap]. unfold valid_edit at 1.
  assert (forall w, w ∈ words -> type_of w = key_type trie) as Hty'
    by (intros; apply Hty; by right).
  destruct (decide (w ∈ used)); [by apply IH|].
  rewrite !contains_eq, !getitem_eq.
  destruct (decide (type_of w = key_type trie)) as [Hw|Hw];
    [|destruct Hw; apply Hty; left].
  cbn [mbind result_bind]. rewrite stored_at_value_at.
  destruct (value_at trie (units w)) as [[c|]|e]; simpl; by apply IH.
Qed.


Lemma elem_of_valid_edits (trie : @Trie E Z) used (words : list key) (x : key) f :
  (x, f) ∈ omap (valid_edit trie used) words <->
  (x ∈ words /\ (x ∉ used) /\ __getitem__ trie x = OK (Some f)).
Proof.
  rewrite list_elem_of_omap. unfold valid_edit. split.
  - intros (w & Hw & Hv). destruct (decide (w ∈ used)); [done|].
    destruct (__contains__ trie w) as [[]|]; [|done..].
    destruct (__getitem__ trie w) as [[c|]|] eqn:Hg; [|done..].
    by injection Hv as -> ->.
  - intros (Hw & Hu & Hg). exists x. split; [done|].
    rewrite decide_False by done.
    assert (__contains__ trie x = OK true) as -> by (apply contains_true; eauto).
    by rewrite Hg.
Qed.



(** C5, amended: when [autocomplete] returns [max_count] words,
    [autocorrect] returns the same list; when [max_count] is unset and some
    edit of the prefix is a stored key that [autocomplete] did not return,
    [autocorrect] returns the words of [autocomplete] followed by the edits
    that are stored with a positive count and not among them. *)
Theorem autocorrect_after_autocomplete (trie : @Trie E Z) :
  (forall prefix n l,
     autocomplete set_iter trie prefix (Some n) = OK l ->
     Z.of_nat (length l) = n ->
     autocorrect set_iter trie prefix (Some n) = OK l) /\
  (forall p l,
     autocomplete set_iter trie (Str p) None = OK l ->
     (exists w, w ∈ get_edits_str p /\ (Str w ∉ l) /\
                __contains__ trie (Str w) = OK true) ->
     exists extra,
       autocorrect set_iter trie (Str p) None = OK (l ++ extra) /\
       forall x, x ∈ extra <->
         exists w f, x = Str w /\ w ∈ get_edits_str p /\ (x ∉ l) /\
                     __getitem__ trie x = OK (Some f) /\ 0 < f).
Proof.
  split.
  - intros prefix n l Hl Hn. unfold autocorrect. rewrite Hl.
    cbn [mbind result_bind]. unfold room.
    by rewrite bool_decide_false by lia.
  - intros p l Hl (w0 & Hw0 & Hnl0 & [f0 Hf0]%contains_true).
    pose proof (autocomplete_OK_type _ _ _ _ Hl) as Hty.
    unfold autocorrect. rewrite Hl. cbn [mbind result_bind room get_edits].
    set (words := Str <$> get_edits_str p).
    rewrite tally_edits_spec.
    2:{ intros w (? & -> & _)%list_elem_of_fmap. done. }
    cbn [mbind result_bind].
    set (seen := omap (valid_edit trie l) words).
    set (st := foldl (fun st e => tally st e.1 e.2) (∅, None) seen).
    assert (tallied st seen) as Hst
      by apply (tallied_foldl _ (∅, None) []), tallied_empty.
    assert ((Str w0, f0) ∈ seen) as Hseen0.
    { apply elem_of_valid_edits. split_and!; [|done..].
      apply list_elem_of_fmap. by exists w0. }
    destruct st.2 as [m|] eqn:Hm.
    2:{ destruct Hst as (_ & [Hnil _] & _). rewrite Hnil in Hseen0 by done.
        by apply elem_of_nil in Hseen0. }
    rewrite (emit_spec OK id None st seen l m Hst Hm) by done.
    eexists. split; [done|]. intros x. simpl. rewrite list_fmap_id.
    rewrite list_elem_of_fmap. split.
    + intros ([x' f] & -> & Hin). simpl.
      apply (elem_of_ranked st seen) in Hin as [Hr Hin]; [|done].
      apply elem_of_range_down in Hr.
      apply elem_of_valid_edits in Hin as ((w & -> & Hw)%list_elem_of_fmap & Hnl & Hg).
      exists w, f. split_and!; [done..|lia].
    + intros (w & f & -> & Hw & Hnl & Hg & Hpos). exists (Str w, f). split; [done|].
      assert ((Str w, f) ∈ seen) as Hin.
      { apply elem_of_valid_edits. split_and!; [|done..].
        apply list_elem_of_fmap. by exists w. }
      apply (elem_of_ranked st seen); [done|]. split; [|done].
      apply elem_of_range_down. destruct Hst as (_ & _ & Hmax).
      specialize (Hmax m Hm _ _ Hin Hpos). lia.
Qed.

End RankingFacts.

Lemma insertion_order_perm (A : Type) (l : list A) : insertion_order A l ≡ₚ l.
Proof. done. Qed.

(** C3, after the only completion is deleted: the path of ['ba'] is still
    there and no key starts with ['ba'], yet [autocomplete] raises
    [TypeError] instead of returning the empty list, whatever the order in
    which sets are iterated. *)
Theorem autocomplete_raises_without_completion :
  forall set_iter : (forall A : Type, list A -> list A),
    __delitem__ bat_trie (Str (lit "bat")) = (OK tt, deleted_bat_trie) /\
    __iter__ deleted_bat_trie = OK [] /\
    (exists t, _find_trie deleted_bat_trie (Str (lit "ba")) = OK t) /\
    autocomplete set_iter deleted_bat_trie (Str (lit "ba")) (Some 1)
    = Raise TypeError.
Proof. intros set_iter. split_and!; [reflexivity..|by eexists|reflexivity]. Qed.





(** Counterexample to C5 as stated: with [max_count] unset,
    [autocomplete] of ['cat'] yields [['cat']] and [autocorrect] appends
    the edit ['car'].  Every set involved has one element, so the order of
    iteration plays no part. *)
Lemma autocorrect_unset_count_appends_edits :
  autocomplete insertion_order (trie_of "cat car") (Str (lit "cat")) None
  = OK [Str (lit "cat")] /\
  autocorrect insertion_order (trie_of "cat car") (Str (lit "cat")) None
  = OK [Str (lit "cat"); Str (lit "car")].
Proof. split; vm_compute; reflexivity. Qed.

(** Witness of C5: ['ba'] with [max_count = 1] in the trie of the
    docstring of [autocomplete], and ['cat'] with [max_count] unset. *)
Lemma autocorrect_after_autocomplete_witness :
  autocorrect insertion_order (trie_of "bat bat bark bar") (Str (lit "ba")) (Some 1)
  = OK [Str (lit "bat")] /\
  exists extra,
    autocorrect insertion_order (trie_of "cat car") (Str (lit "cat")) None
    = OK ([Str (lit "cat")] ++ extra) /\
    forall x, x ∈ extra <->
      exists w f, x = Str w /\ w ∈ get_edits_str (lit "cat") /\
                  (x ∉ [Str (lit "cat")]) /\
                  __getitem__ (trie_of "cat car") x = OK (Some f) /\ 0 < f.
Proof.
  split.
  - apply (proj1 (autocorrect_after_autocomplete insertion_order
                    insertion_order_perm (trie_of "bat bat bark bar")));
      vm_compute; reflexivity.
  - apply (proj2 (autocorrect_after_autocomplete insertion_order
                    insertion_order_perm (trie_of "cat car")) (lit "cat"));
      [vm_compute; reflexivity|].
    exists (lit "car"). split_and!.
    + apply (bool_decide_unpack _). vm_compute. reflexivity.
    + apply (bool_decide_unpack _). vm_compute. reflexivity.
    + vm_compute. reflexivity.
Defined.

(** ** Patterns *)

Lemma matches_nil_iff (u : str) : matches [] u <-> u = [].
Proof. split; [by inversion 1|intros ->; constructor]. Qed.

Lemma matches_star_iff (p u : str) :
  matches ("*"%char :: p) u <->
  matches p u \/ exists c u', u = c :: u' /\ matches ("*"%char :: p) u'.
Proof.
  split.
  - inversion 1 as [|p' w1 w2 Hm| |]; subst; [|done].
    destruct w1 as [|c w1]; [by left|]. right. exists c, (w1 ++ w2).
    split; [done|]. by constructor.
  - intros [Hm|(c & u' & -> & Hm)].
    + by apply (matches_star p []).
    + inversion Hm as [|p' w1 w2 Hm'| |]; subst; [|done].
      by apply (matches_star p (c :: w1)).
Qed.

Lemma matches_any_iff (p u : str) :
  matches ("?"%char :: p) u <-> exists c u', u = c :: u' /\ matches p u'.
Proof.
  split.
  - inversion 1; subst; [by eexists _, _|done].
  - intros (c & u' & -> & Hm). by constructor.
Qed.

Lemma matches_char_iff (c : ascii) (p u : str) :
  c <> "*"%char -> c <> "?"%char ->
  matches (c :: p) u <-> exists u', u = c :: u' /\ matches p u'.
Proof.
  intros Hs Hq. split.
  - inversion 1; subst; [done..|by eexists].
  - intros (u' & -> & Hm). by constructor.
Qed.

Lemma matches_star_star (p u : str) :
  matches ("*"%char :: "*"%char :: p) u <-> matches ("*"%char :: p) u.
Proof.
  split.
  - inversion 1 as [|p' w1 w2 Hm| |]; subst; [|done].
    inversion Hm as [|p' w3 w4 Hm'| |]; subst; [|done].
    rewrite app_assoc. by constructor.
  - intros Hm. by apply (matches_star _ []).
Qed.

Lemma skip_stars_cons (a b : ascii) (p : str) :
  skip_stars (a :: b :: p) =
  if decide (b = "*"%char) then skip_stars (b :: p) else a :: b :: p.
Proof. done. Qed.

Lemma skip_stars_spec (p : str) :
  exists p', skip_stars ("*"%char :: p) = "*"%char :: p' /\
             (length p' <= length p)%nat /\
             forall u, matches ("*"%char :: p) u <-> matches ("*"%char :: p') u.
Proof.
  induction p as [|c p IH]; [by exists []|].
  rewrite skip_stars_cons. destruct (decide (c = "*"%char)) as [->|Hc].
  - destruct IH as (p' & -> & Hlen & Hm). exists p'. split_and!; [done|simpl; lia|].
    intros u. by rewrite matches_star_star.
  - by exists (c :: p).
Qed.

Lemma matchb_spec (p : str) : forall u, matchb p u = true <-> matches p u.
Proof.
  induction p as [|c p IH]; intros u; cbn [matchb].
  - by rewrite bool_decide_eq_true, matches_nil_iff.
  - destruct (decide (c = "*"%char)) as [->|Hs].
    + induction u as [|d u IHu]; rewrite matches_star_iff, orb_true_iff, IH.
      * split; [intros [?|?]; [by left|done]|]. intros [?|(? & ? & ? & _)]; [by left|done].
      * rewrite IHu. split; (intros [?|Hr]; [by left|right]).
        -- by exists d, u.
        -- by destruct Hr as (? & ? & [= <- <-] & ?).
    + destruct u as [|d u].
      * split; [done|]. inversion 1; by subst.
      * rewrite andb_true_iff, orb_true_iff, !bool_decide_eq_true, IH.
        destruct (decide (c = "?"%char)) as [->|Hq].
        -- rewrite matches_any_iff. split.
           ++ intros [_ ?]. by exists d, u.
           ++ intros (? & ? & [= <- <-] & ?). auto.
        -- rewrite matches_char_iff by done. split.
           ++ intros [[?| ->] ?]; [done|]. by exists u.
           ++ intros (? & [= <- <-] & ?). auto.
Qed.

(** ** Wildcard search *)

Lemma set_add_NoDup {A} `{EqDecision A} (x : A) (a : list A) :
  NoDup a -> NoDup (set_add x a).
Proof.
  intros Ha. unfold set_add. case_decide as Hx; [done|].
  apply NoDup_app. split_and!; [done| |apply NoDup_singleton].
  by intros y Hy ->%list_elem_of_singleton.
Qed.

Lemma foldl_set_add {A} `{EqDecision A} (l : list A) : forall a : list A,
  NoDup a ->
  NoDup (foldl (fun acc x => set_add x acc) a l) /\
  forall y, y ∈ foldl (fun acc x => set_add x acc) a l <-> y ∈ a \/ y ∈ l.
Proof.
  induction l as [|x l IH]; intros a Ha; simpl.
  - split; [done|]. intros y. split; [auto|]. by intros [?|?%elem_of_nil].
  - destruct (IH (set_add x a) (set_add_NoDup x a Ha)) as [Hnd Hin].
    split; [done|]. intros y.
    rewrite Hin, elem_of_cons. unfold set_add. case_decide as Hx.
    + split; [tauto|]. intros [?|[->|?]]; auto.
    + rewrite elem_of_app, list_elem_of_singleton. tauto.
Qed.

Section SearchFacts.
Context {E : Type} `{EqDecision E}.
Context {V : Type} `{EqDecision V}.
Variable set_iter : forall A : Type, list A -> list A.
Hypothesis set_iter_perm : forall (A : Type) (l : list A), set_iter A l ≡ₚ l.

#[local] Abbreviation key := (@pykey E).
#[local] Abbreviation trie := (@Trie E V).
#[local] Abbreviation match_set := (list (key * option V)).

Lemma set_union_spec (a b : match_set) :
  NoDup a ->
  NoDup (set_union set_iter a b) /\
  forall x, x ∈ set_union set_iter a b <-> x ∈ a \/ x ∈ b.
Proof.
  intros Ha. unfold set_union.
  destruct (foldl_set_add (set_iter _ b) a Ha) as [Hnd Hin].
  split; [done|]. intros x. by rewrite Hin, set_iter_perm.
Qed.

Lemma for_children_spec (body : match_set -> key -> run match_set)
    (Q : key -> key * option V -> Prop) cs :
  (forall c m, c ∈ cs -> NoDup m ->
     exists m', body m c = Ret m' /\ NoDup m' /\ forall x, x ∈ m' <-> x ∈ m \/ Q c x) ->
  forall m, NoDup m ->
    exists m', for_children body cs m = Ret m' /\ NoDup m' /\
               forall x, x ∈ m' <-> x ∈ m \/ exists c, c ∈ cs /\ Q c x.
Proof.
  induction cs as [|c cs IH]; intros Hbody m Hm; cbn [for_children].
  - exists m. split_and!; [done..|]. intros x. split; [auto|].
    by intros [?|(c & ?%elem_of_nil & _)].
  - destruct (Hbody c m) as (m1 & -> & Hnd1 & Hin1); [left|done|].
    cbn [mbind run_bind].
    destruct (IH (fun c' m' Hc' => Hbody c' m' (list_elem_of_further _ _ _ Hc')) m1 Hnd1)
      as (m2 & -> & Hnd2 & Hin2).
    exists m2. split_and!; [done..|]. intros x. rewrite Hin2, Hin1. split.
    + intros [[?|?]|(c' & ? & ?)]; [by left|right..].
      * exists c. split; [left|done].
      * exists c'. split; [by right|done].
    + intros [?|(c' & [->|?]%elem_of_cons & ?)]; [by left; left|by left; right|].
      right. by exists c'.
Qed.

Lemma height_unfold (t : trie) :
  height t = foldr (fun kc h => Nat.max (S (height kc.2)) h) O (children t).
Proof.
  destruct t as [v kt d]; cbn [height children].
  induction d as [|[k c] d IHd]; [done|]. simpl. by rewrite IHd.
Qed.

Lemma height_child (n child : trie) c :
  dict_get c (children n) = Some child -> (height child < height n)%nat.
Proof.
  intros Hc%dict_get_Some. rewrite (height_unfold n).
  induction (children n) as [|[k c'] d IHd]; [by apply elem_of_nil in Hc|].
  apply elem_of_cons in Hc as [[= <- <-]|Hc]; simpl; [lia|].
  specialize (IHd Hc). lia.
Qed.

Lemma units_snoc (w : str) (ch : ascii) :
  units (Str (w ++ [ch]) : key) = units (Str w) ++ [Str [ch]].
Proof. simpl. by rewrite fmap_app. Qed.

Lemma find_loop_snoc (t n : trie) (w : str) (ch : ascii) :
  find_loop t (units (Str w)) = OK n ->
  find_loop t (units (Str (w ++ [ch]))) =
  match dict_get (Str [ch]) (children n) with
  | Some child => OK child
  | None => Raise KeyError
  end.
Proof. intros Hn. by rewrite units_snoc, find_loop_app, Hn. Qed.

Lemma stored_at_step (n : trie) (ch : ascii) (u : str) f :
  stored_at n (units (Str (ch :: u))) = Some f <->
  exists child, dict_get (Str [ch]) (children n) = Some child /\
                stored_at child (units (Str u)) = Some f.
Proof.
  change (units (Str (ch :: u))) with (@Str E [ch] :: units (Str u)).
  rewrite stored_at_cons. unfold child_or_new.
  destruct (dict_get (Str [ch]) (children n)) as [child|]; simpl.
  - split; [by exists child|]. by intros (? & [= <-] & ?).
  - rewrite stored_at_new. split; [done|]. by intros (? & ? & _).
Qed.

Lemma child_key (n : trie) (c : key) :
  wf KStr n -> c ∈ (children n).*1 ->
  exists ch child, c = Str [ch] /\ dict_get c (children n) = Some child.
Proof.
  intros Hwf ([c' child] & -> & Hin)%list_elem_of_fmap. simpl.
  pose proof Hwf as (_ & Hnd & Hall)%wf_unfold.
  rewrite Forall_forall in Hall. destruct (Hall _ Hin) as [[Hty Hlen] _].
  simpl in *. destruct c' as [[|ch [|??]]|?]; simpl in *; try done.
  exists ch, child. split; [done|]. by apply dict_get_elem.
Qed.

(** The words found below the children of [n] are the non-empty words
    found below [n]. *)
Lemma below_children (n : trie) (w pattern : str) x :
  (exists c, c ∈ (children n).*1 /\ below n w pattern c x) <->
  exists ch u f,
    x = (Str (w ++ ch :: u), Some f) /\ matches pattern u /\
    stored_at n (units (Str (ch :: u))) = Some f.
Proof.
  split.
  - intros (c & _ & ch & child & -> & Hc & u & f & -> & Hm & Hs).
    exists ch, u, f. rewrite <-app_assoc. split_and!; [done..|].
    apply stored_at_step. by exists child.
  - intros (ch & u & f & -> & Hm & (child & Hc & Hs)%stored_at_step).
    exists (Str [ch]). split.
    + apply dict_get_Some in Hc. apply list_elem_of_fmap. by exists (Str [ch], child).
    + exists ch, child. split_and!; [done..|]. exists u, f.
      by rewrite <-app_assoc.
Qed.


Lemma found_nil (n : trie) (w : str) x :
  found n w [] x <-> exists f, value n = Some f /\ x = (Str w, Some f).
Proof.
  unfold found. split.
  - intros (u & f & -> & ->%matches_nil_iff & Hs). exists f.
    by rewrite app_nil_r.
  - intros (f & Hf & ->). exists [], f. rewrite app_nil_r.
    split_and!; [done|constructor|done].
Qed.

Section SearchRoot.
Variable root : trie.
Hypothesis root_wf : wf KStr root.

(** [search] on the word [w], whose node is [n]: with a budget above the
    length of the pattern plus the height of [n] it returns the set of the
    pairs found below [n]. *)
Lemma search_spec (fuel : nat) : forall (pattern w : str) (n : trie),
  find_loop root (units (Str w)) = OK n ->
  (length pattern + height n < fuel)%nat ->
  exists m,
    search set_iter fuel root pattern (Str w) = Ret m /\ NoDup m /\
    forall x, x ∈ m <-> found n w pattern x.
Proof.
  pose proof (wf_key_type _ _ root_wf) as Hkt.
  induction fuel as [|fuel IH]; intros pattern w n Hn Hfuel; [lia|].
  destruct (wf_find_loop _ _ _ _ root_wf Hn) as [Hwfn _].
  assert (_find_trie root (Str w) = OK n) as Hfind
    by (by rewrite find_trie_eq, decide_True).
  assert (forall c, c ∈ (children n).*1 ->
            exists ch child, c = Str [ch] /\ dict_get c (children n) = Some child /\
              lift (py_add (Str w) c) = Ret (Str (w ++ [ch])) /\
              find_loop root (units (Str (w ++ [ch]))) = OK child /\
              (height child < height n)%nat) as Hstep.
  { intros c (ch & child & -> & Hc)%child_key; [|done].
    exists ch, child. split_and!; [done..| |by eapply height_child].
    by rewrite (find_loop_snoc _ _ _ _ Hn), Hc. }
  cbn [search]. destruct pattern as [|p0 rest].
  - (* the pattern is used up *)
    rewrite contains_eq, getitem_eq.
    destruct (decide (type_of (Str w : key) = key_type root)) as [_|Hne];
      [|by destruct Hne].
    unfold stored_at, value_at. rewrite Hn. cbn [mbind result_bind lift run_bind].
    destruct (value n) as [f|] eqn:Hv; simpl.
    + exists [(Str w, Some f)]. split_and!; [done|apply NoDup_singleton|].
      intros x. rewrite list_elem_of_singleton, found_nil. split.
      * intros ->. by exists f.
      * intros (f' & Hf' & ->). congruence.
    + exists []. split_and!; [done|constructor|].
      intros x. rewrite found_nil. split; [by intros ?%elem_of_nil|].
      intros (f' & Hf' & _). congruence.
  - destruct (decide (p0 = "*"%char)) as [->|Hstar];
      [|destruct (decide (p0 = "?"%char)) as [->|Hany]].
    + (* a star *)
      destruct (skip_stars_spec rest) as (p' & -> & Hlen & Hm). cbn [tail].
      simpl in Hfuel.
      destruct (IH p' w n Hn) as (m0 & -> & Hnd0 & Hin0); [lia|].
      cbn [mbind run_bind]. rewrite Hfind. cbn [lift mbind run_bind].
      destruct (set_union_spec [] m0 (NoDup_nil_2)) as [Hndu Hinu].
      match goal with |- context [for_children ?body ?cs ?acc] =>
        destruct (fun H => for_children_spec body (below n w ("*"%char :: p')) cs H
                             acc Hndu) as (m' & -> & Hnd' & Hin') end.
      { intros c m Hc Hndm.
        destruct (Hstep c Hc) as (ch & child & -> & Hget & -> & Hchild & Hh).
        cbn [mbind run_bind].
        destruct (IH ("*"%char :: p') (w ++ [ch]) child Hchild)
          as (m1 & -> & Hnd1 & Hin1); [simpl; lia|].
        cbn [mbind run_bind].
        destruct (set_union_spec m m1 Hndm) as [Hnd2 Hin2].
        assert (forall x, x ∈ m1 <-> below n w ("*"%char :: p') (Str [ch]) x) as Hb.
        { intros x. rewrite Hin1. split.
          - intros Hx. by exists ch, child.
          - intros (ch' & child' & [= <-] & Hget' & Hx). congruence. }
        destruct (is_second (Str [ch]) ("*"%char :: p')).
        - destruct (IH p' (w ++ [ch]) child Hchild)
            as (m2 & -> & Hnd3 & Hin3); [simpl; lia|].
          cbn [mbind run_bind].
          destruct (set_union_spec (set_union set_iter m m1) m2 Hnd2) as [Hnd4 Hin4].
          eexists. split_and!; [done..|]. intros x.
          rewrite Hin4, Hin2, Hb. split; [|tauto].
          intros [?|Hx]; [done|]. right. apply Hb, Hin1. apply Hin3 in Hx.
          destruct Hx as (u & f & -> & Hmu & Hs). exists u, f.
          split_and!; [done| |done]. by apply (matches_star p' []).
        - eexists. split_and!; [done..|]. intros x. by rewrite Hin2, Hb. }
      exists m'. split_and!; [done..|]. intros x.
      rewrite Hin', Hinu, Hin0, below_children. unfold found. split.
      * intros [[?%elem_of_nil|(u & f & -> & Hmu & Hs)]|(ch & u & f & -> & Hmu & Hs)];
          [done| |].
        -- exists u, f. split_and!; [done| |done].
           apply Hm, matches_star_iff. by left.
        -- exists (ch :: u), f. split_and!; [done| |done].
           apply Hm, matches_star_iff. right. by exists ch, u.
      * intros (u & f & -> & Hmu & Hs).
        apply Hm, matches_star_iff in Hmu as [Hmu|(ch & u' & -> & Hmu)].
        -- left; right. by exists u, f.
        -- right. by exists ch, u', f.
    + (* a question mark *)
      cbn [tail]. rewrite Hfind. cbn [lift mbind run_bind]. simpl in Hfuel.
      match goal with |- context [for_children ?body ?cs ?acc] =>
        destruct (fun H => for_children_spec body (below n w rest) cs H
                             acc (NoDup_nil_2)) as (m' & -> & Hnd' & Hin') end.
      { intros c m Hc Hndm.
        destruct (Hstep c Hc) as (ch & child & -> & Hget & -> & Hchild & Hh).
        cbn [mbind run_bind].
        destruct (IH rest (w ++ [ch]) child Hchild)
          as (m1 & -> & Hnd1 & Hin1); [lia|].
        cbn [mbind run_bind].
        destruct (set_union_spec m m1 Hndm) as [Hnd2 Hin2].
        eexists. split_and!; [done..|]. intros x. rewrite Hin2, Hin1. split.
        - intros [?|Hx]; [by left|right]. by exists ch, child.
        - intros [?|(ch' & child' & [= <-] & Hget' & Hx)]; [by left|right].
          congruence. }
      exists m'. split_and!; [done..|]. intros x.
      rewrite Hin', below_children. unfold found. split.
      * intros [?%elem_of_nil|(ch & u & f & -> & Hmu & Hs)]; [done|].
        exists (ch :: u), f. split_and!; [done| |done]. by constructor.
      * intros (u & f & -> & Hmu & Hs).
        apply matches_any_iff in Hmu as (ch & u' & -> & Hmu).
        right. by exists ch, u', f.
    + (* a literal character *)
      cbn [tail py_add lift mbind run_bind]. simpl in Hfuel.
      rewrite find_trie_eq.
      destruct (decide (type_of (Str (w ++ [p0]) : key) = key_type root)) as [_|Hne];
        [|by destruct Hne].
      rewrite (find_loop_snoc _ _ _ _ Hn).
      destruct (dict_get (Str [p0]) (children n)) as [child|] eqn:Hget;
        cbn [lift mbind run_bind except_KeyError_pass].
      * assert (find_loop root (units (Str (w ++ [p0]))) = OK child) as Hchild
          by (by rewrite (find_loop_snoc _ _ _ _ Hn), Hget).
        pose proof (height_child _ _ _ Hget) as Hh.
        destruct (IH rest (w ++ [p0]) child Hchild)
          as (m1 & -> & Hnd1 & Hin1); [lia|].
        cbn [mbind run_bind except_KeyError_pass].
        destruct (set_union_spec [] m1 NoDup_nil_2) as [Hnd2 Hin2].
        eexists. split_and!; [done..|]. intros x.
        rewrite Hin2, Hin1. unfold found. split.
        -- intros [?%elem_of_nil|(u & f & -> & Hmu & Hs)]; [done|].
           exists (p0 :: u), f. rewrite <-app_assoc.
           split_and!; [done|by constructor|].
           apply stored_at_step. by exists child.
        -- intros (u & f & -> & Hmu & Hs).
           apply matches_char_iff in Hmu as (u' & -> & Hmu); [|done..].
           apply stored_at_step in Hs as (child' & Hget' & Hs).
           right. exists u', f. rewrite <-app_assoc.
           split_and!; [done..|congruence].
      * exists []. split_and!; [done|constructor|]. intros x.
        unfold found. split; [by intros ?%elem_of_nil|].
        intros (u & f & -> & Hmu & Hs).
        apply matches_char_iff in Hmu as (u' & -> & Hmu); [|done..].
        apply stored_at_step in Hs as (child' & Hget' & Hs). congruence.
Qed.

End SearchRoot.

(** What [word_filter] returns on a string trie: with a budget above the
    length of the pattern plus the height of the trie, the pairs of the
    stored keys that match the pattern, each once. *)
Lemma word_filter_matches (t : trie) (pattern : str) (fuel : nat) :
  wf KStr t -> (length pattern + height t < fuel)%nat ->
  exists l,
    word_filter set_iter fuel t pattern = Ret l /\ NoDup l /\
    forall k v, (k, v) ∈ l <->
      exists w f, k = Str w /\ v = Some f /\ matches pattern w /\
                  __getitem__ t (Str w) = OK (Some f).
Proof.
  intros Hwf Hfuel. unfold word_filter.
  destruct (search_spec t Hwf fuel pattern [] t) as (m & -> & Hnd & Hin); [done..|].
  cbn [mbind run_bind]. exists (set_iter _ m). split_and!; [done| |].
  - by rewrite set_iter_perm.
  - intros k v. rewrite set_iter_perm, Hin. unfold found. simpl. split.
    + intros (u & f & [= -> ->] & Hm & Hs). exists u, f.
      split_and!; [done..|]. apply getitem_Some.
      by rewrite (wf_key_type _ _ Hwf).
    + intros (w & f & -> & -> & Hm & [_ Hs]%getitem_Some). by exists w, f.
Qed.


(** The same, from the pairs that iteration yields. *)
Lemma word_filter_iter (t : trie) (pattern : str) (fuel : nat) es :
  wf KStr t -> (length pattern + height t < fuel)%nat -> __iter__ t = OK es ->
  exists l,
    word_filter set_iter fuel t pattern = Ret l /\ NoDup l /\
    forall x, x ∈ l <-> x ∈ omap (matching_item pattern) es.
Proof.
  intros Hwf Hfuel Hes.
  destruct (word_filter_matches t pattern fuel Hwf Hfuel) as (l & Hl & Hnd & Hin).
  exists l. split_and!; [done..|]. intros [k v].
  rewrite Hin, list_elem_of_omap. unfold matching_item. split.
  - intros (w & f & -> & -> & Hm%matchb_spec & [_ Hs]%getitem_Some).
    exists (Str w, f). split; [|by simpl; rewrite Hm].
    by apply (elem_of_iter KStr t).
  - intros ([[w|?] f] & [_ Hs]%(elem_of_iter KStr t) & Hx); [|done..]. simpl in Hx.
    destruct (matchb pattern w) eqn:Hm; [|done]. injection Hx as <- <-.
    exists w, f. split_and!; [done..|by apply matchb_spec|].
    apply getitem_Some. by rewrite (wf_key_type _ _ Hwf).
Qed.

End SearchFacts.

(** ** The word index *)

Section WordIndexFacts.
Context {E : Type} `{EqDecision E}.
Variable tokenize_sentences : str -> list str.

#[local] Abbreviation trie := (@Trie E Z).

Lemma setitem_result_wf (t t' : trie) (k : @pykey E) v :
  wf KStr t -> (let (r, t2) := __setitem__ t k v in r ;; OK t2) = OK t' ->
  wf KStr t'.
Proof.
  intros Hwf. pose proof (setitem_outcomes KStr t k v Hwf) as Hout.
  destruct (__setitem__ t k v) as [[[]|e] t2] eqn:Hset; simpl in *; [|done].
  intros [= <-]. destruct Hout as [Hty Hlen].
  destruct (setitem_ok KStr t k v Hwf Hty Hlen) as (t3 & Hset' & Hwf' & _).
  congruence.
Qed.

Lemma count_word_wf (t t' : trie) w :
  wf KStr t -> count_word t w = OK t' -> wf KStr t'.
Proof.
  intros Hwf. unfold count_word.
  destruct (__contains__ t (Str w)) as [[]|]; cbn [mbind result_bind]; [| |done].
  - destruct (__getitem__ t (Str w)) as [[c|]|]; cbn [mbind result_bind]; [|done..].
    by apply setitem_result_wf.
  - by apply setitem_result_wf.
Qed.

Lemma count_words_wf ws : forall t t' : trie,
  wf KStr t -> count_words t ws = OK t' -> wf KStr t'.
Proof.
  induction ws as [|w ws IH]; intros t t' Hwf; cbn [count_words]; [by intros [= <-]|].
  destruct (count_word t w) as [t1|] eqn:H1; cbn [mbind result_bind]; [|done].
  apply IH. by eapply count_word_wf.
Qed.

(** The word index is one of the tries the class builds. *)
Lemma make_word_trie_wf (text : str) (t : trie) :
  make_word_trie tokenize_sentences text = OK t -> wf KStr t.
Proof.
  unfold make_word_trie. generalize (tokenize_sentences text). intros ss.
  assert (wf KStr (new_Trie KStr : trie)) as Hwf by apply wf_new.
  revert Hwf. generalize (new_Trie KStr : trie). revert t.
  induction ss as [|st ss IH]; intros t t0 Hwf; cbn [count_sentences];
    [by intros [= <-]|].
  destruct (count_words t0 (split_space st)) as [t1|] eqn:H1;
    cbn [mbind result_bind]; [|done].
  apply IH. by eapply count_words_wf.
Qed.

End WordIndexFacts.

(** C6: on a string trie, with a recursion budget above the length of the
    pattern plus the height of the trie, [word_filter] returns, each once,
    the pairs (key, value) of the stored keys that match the pattern, where
    a literal character matches itself, [?] one character and [*] any run of
    characters.  On the index of the sentence ["bar bark bat bat"] the
    pattern [*] yields the pairs of [bar], [bark] and [bat], [???] those of
    [bar] and [bat], and [*r*] those of [bar] and [bark], in some order. *)
Theorem word_filter_spec {E : Type} `{EqDecision E}
    (set_iter : forall A : Type, list A -> list A) :
  (forall (A : Type) (l : list A), set_iter A l ≡ₚ l) ->
  (forall (V : Type) `{EqDecision V} (t : @Trie E V) (pattern : str) (fuel : nat),
     wf KStr t -> (length pattern + height t < fuel)%nat ->
     exists l,
       word_filter set_iter fuel t pattern = Ret l /\ NoDup l /\
       forall k v, (k, v) ∈ l <->
         exists w f, k = Str w /\ v = Some f /\ matches pattern w /\
                     __getitem__ t (Str w) = OK (Some f)) /\
  (forall tokenize_sentences : str -> list str,
     tokenize_sentences (lit "bar bark bat bat") = [lit "bar bark bat bat"] ->
     exists t : @Trie E Z,
       make_word_trie tokenize_sentences (lit "bar bark bat bat") = OK t /\
       forall fuel, (8 <= fuel)%nat ->
         exists l1 l2 l3,
           word_filter set_iter fuel t (lit "*") = Ret l1 /\
           l1 ≡ₚ [bar_1; bark_1; bat_2] /\
           word_filter set_iter fuel t (lit "???") = Ret l2 /\
           l2 ≡ₚ [bar_1; bat_2] /\
           word_filter set_iter fuel t (lit "*r*") = Ret l3 /\
           l3 ≡ₚ [bar_1; bark_1]).
Proof.
  intros Hperm. split.
  - intros V HV t pattern fuel. by apply word_filter_matches.
  - intros tok Htok.
    destruct (make_word_trie tok (lit "bar bark bat bat")) as [t|e] eqn:Ht.
    2:{ unfold make_word_trie in Ht. rewrite Htok in Ht. vm_compute in Ht. done. }
    exists t. split; [done|]. intros fuel Hfuel.
    pose proof (make_word_trie_wf tok _ t Ht) as Hwf.
    unfold make_word_trie in Ht. rewrite Htok in Ht. vm_compute in Ht.
    injection Ht as <-.
    match goal with |- context [word_filter _ _ ?c _] => set (t := c) in * end.
    assert (height t = 4%nat) as Hh by (vm_compute; reflexivity).
    pose proof (iter_entries KStr t Hwf) as Hit.
    assert (forall p, (length p <= 3)%nat -> forall expected,
              omap (matching_item p)
                (prod_map (join (empty_key KStr)) id <$> entries t) = expected ->
              NoDup expected ->
              exists l, word_filter set_iter fuel t p = Ret l /\ l ≡ₚ expected) as Hp.
    { intros p Hlen expected Hex Hnd.
      destruct (word_filter_iter set_iter Hperm t p fuel
                  (prod_map (join (empty_key KStr)) id <$> entries t) Hwf)
        as (l & Hl & Hndl & Hin); [lia|exact Hit|].
      exists l. split; [done|]. apply NoDup_Permutation; [done..|].
      intros x. by rewrite Hin, Hex. }
    destruct (Hp (lit "*") ltac:(simpl; lia) [bar_1; bark_1; bat_2])
      as (l1 & Hl1 & Hperm1); [vm_compute; reflexivity| |].
    { apply (bool_decide_unpack _). vm_compute. reflexivity. }
    destruct (Hp (lit "???") ltac:(simpl; lia) [bar_1; bat_2])
      as (l2 & Hl2 & Hperm2); [vm_compute; reflexivity| |].
    { apply (bool_decide_unpack _). vm_compute. reflexivity. }
    destruct (Hp (lit "*r*") ltac:(simpl; lia) [bar_1; bark_1])
      as (l3 & Hl3 & Hperm3); [vm_compute; reflexivity| |].
    { apply (bool_decide_unpack _). vm_compute. reflexivity. }
    by exists l1, l2, l3.
Qed.

Lemma wf_trie_of (text : string) : wf KStr (trie_of text).
Proof.
  unfold trie_of. destruct (word_trie text) as [t|e] eqn:Ht; [|apply wf_new].
  by eapply make_word_trie_wf.
Qed.

(** Witness of C6: the pattern [b?r*] on the index of ["bar bark bat bat"],
    and the three patterns of the scenario, with sets iterated in insertion
    order and the text taken as one sentence. *)
Lemma word_filter_spec_witness :
  (exists l,
     word_filter insertion_order 10 (trie_of "bar bark bat bat") (lit "b?r*") = Ret l /\
     NoDup l /\
     forall k v, (k, v) ∈ l <->
       exists w f, k = Str w /\ v = Some f /\ matches (lit "b?r*") w /\
                   __getitem__ (trie_of "bar bark bat bat") (Str w) = OK (Some f)) /\
  (exists t : @Trie nat Z,
     make_word_trie one_sentence (lit "bar bark bat bat") = OK t /\
     forall fuel, (8 <= fuel)%nat ->
       exists l1 l2 l3,
         word_filter insertion_order fuel t (lit "*") = Ret l1 /\
         l1 ≡ₚ [bar_1; bark_1; bat_2] /\
         word_filter insertion_order fuel t (lit "???") = Ret l2 /\
         l2 ≡ₚ [bar_1; bat_2] /\
         word_filter insertion_order fuel t (lit "*r*") = Ret l3 /\
         l3 ≡ₚ [bar_1; bark_1]).
Proof.
  destruct (word_filter_spec (E:=nat) insertion_order insertion_order_perm)
    as [Hall Hscenario].
  split.
  - apply Hall; [apply wf_trie_of | vm_compute; lia].
  - apply Hscenario. reflexivity.
Defined.

(** * Further properties of the code *)

(** ** The trie *)

Section TrieMore.
Context {E : Type} `{EqDecision E}.
Context {V : Type}.

#[local] Abbreviation key := (@pykey E).
#[local] Abbreviation trie := (@Trie E V).

Lemma wf_after_set kt (t t' : trie) (k : key) v :
  wf kt t -> __setitem__ t k v = (OK tt, t') -> wf kt t'.
Proof.
  intros Hwf Hset. pose proof (setitem_outcomes kt t k v Hwf) as Hout.
  rewrite Hset in Hout. destruct Hout as [Hty Hlen].
  destruct (setitem_ok kt t k v Hwf Hty Hlen) as (t2 & Hset' & Hwf' & _).
  congruence.
Qed.

(** X1: an assignment [t[k] = v] that succeeds changes no other key:
    [k' in t] is as before for every other key [k'], and [t[k']] returns
    the value it returned before wherever [k'] held one. *)
Theorem set_leaves_other_keys kt (t t' : trie) (k : key) (v : option V) :
  wf kt t -> __setitem__ t k v = (OK tt, t') ->
  forall k', k' <> k ->
    __contains__ t' k' = __contains__ t k' /\
    forall x, __getitem__ t' k' = OK (Some x) <-> __getitem__ t k' = OK (Some x).
Proof.
  intros Hwf Hset k' Hne. pose proof (setitem_outcomes kt t k v Hwf) as Hout.
  rewrite Hset in Hout. destruct Hout as [Hty Hlen].
  destruct (setitem_ok kt t k v Hwf Hty Hlen) as (t2 & Hset' & Hwf' & _ & Hst).
  assert (t2 = t') as -> by congruence.
  pose proof (wf_key_type _ _ Hwf) as Hkt. pose proof (wf_key_type _ _ Hwf') as Hkt'.
  assert (type_of k' = kt -> stored_at t' (units k') = stored_at t (units k')) as Heq.
  { intros Hty'. rewrite Hst, decide_False; [done|]. intros Hu. apply Hne.
    apply units_inj; congruence. }
  split.
  - rewrite !contains_eq, Hkt, Hkt'. case_decide as Hty'; [|done]. by rewrite Heq.
  - intros x. rewrite !getitem_Some, Hkt, Hkt'. split; intros [Hty' Hs];
      (split; [done|]); by rewrite ?Heq in *.
Qed.

(** X4: what [t[k] = v] does on every key: it succeeds exactly on the
    non-empty keys of the trie's kind, raises [TypeError] exactly on the keys
    of the other kind and [IndexError] exactly on the empty key of the trie's
    kind, and a call that raises leaves the trie as it was. *)
Theorem set_succeeds_or_leaves_unchanged kt (t : trie) (k : key) (v : option V) :
  wf kt t ->
  ((__setitem__ t k v).1 = OK tt <-> type_of k = kt /\ key_len k <> 0%nat) /\
  ((__setitem__ t k v).1 = Raise TypeError <-> type_of k <> kt) /\
  ((__setitem__ t k v).1 = Raise IndexError <-> type_of k = kt /\ key_len k = 0%nat) /\
  ((__setitem__ t k v).1 <> OK tt -> (__setitem__ t k v).2 = t).
Proof.
  intros Hwf. pose proof (wf_key_type _ _ Hwf) as Hkt.
  destruct (decide (type_of k = kt)) as [Hty|Hty].
  - destruct (decide (key_len k = 0%nat)) as [Hlen|Hlen].
    + rewrite setitem_empty by congruence. simpl. split_and!; try done.
      split; [done|]. by intros [_ ?].
    + destruct (setitem_ok _ _ _ v Hwf Hty Hlen) as (t' & -> & _). simpl.
      split_and!; try done. split; [done|]. by intros [_ ?].
  - rewrite setitem_wrong_type by congruence. simpl. split_and!; try done.
    + split; [done|]. by intros [? _].
    + split; [done|]. by intros [? _].
Qed.

(** X3: [del t[k]] succeeds exactly when [k in t] holds; otherwise it
    raises [KeyError] (a key of the trie's kind) or [TypeError] (a key of the
    other kind) and leaves the trie as it was. *)
Theorem delete_succeeds_only_on_stored_keys (t : trie) (k : key) :
  ((__delitem__ t k).1 = OK tt <-> __contains__ t k = OK true) /\
  ((__delitem__ t k).1 = Raise KeyError <-> __contains__ t k = OK false) /\
  ((__delitem__ t k).1 = Raise TypeError <-> __contains__ t k = Raise TypeError) /\
  ((__delitem__ t k).1 <> OK tt -> (__delitem__ t k).2 = t).
Proof.
  rewrite delitem_eq, contains_eq. case_decide as Hty.
  - destruct (stored_at t (units k)) as [x|]; simpl; split_and!; done.
  - simpl. split_and!; done.
Qed.

(** A deletion keeps every node. *)
Lemma delete_keeps_paths kt (t t' : trie) (k k' : key) :
  wf kt t -> __delitem__ t k = (OK tt, t') ->
  (exists n, _find_trie t k' = OK n) <-> (exists n, _find_trie t' k' = OK n).
Proof.
  intros Hwf Hdel. pose proof (wf_key_type _ _ Hwf) as Hkt.
  rewrite delitem_eq in Hdel. case_decide as Hty; [|done].
  destruct (stored_at t (units k)) as [x|] eqn:Hs; [|done].
  destruct (delitem_ok kt t k x Hwf) as (t2 & Hdel2 & Hwf' & Hv);
    [congruence|done|].
  rewrite delitem_eq, decide_True, Hs in Hdel2 by done.
  assert (t2 = t') as -> by congruence.
  rewrite !find_trie_eq, (wf_key_type _ _ Hwf'), Hkt. case_decide; [|done].
  specialize (Hv (units k')). unfold value_at in Hv.
  assert (exists n, find_loop t (units k) = OK n) as [n0 Hn0].
  { unfold stored_at in Hs. destruct (find_loop t (units k)); [by eexists|done]. }
  destruct (decide (units k' = units k)) as [Heq|Hne].
  - rewrite Heq in *. rewrite Hn0.
    destruct (find_loop t' (units k)); [|done]. split; intros _; by eexists.
  - destruct (find_loop t' (units k')), (find_loop t (units k')); simpl in *;
      try done; split; intros [? ?]; try done; by eexists.
Qed.

(** X7: an assignment creates the whole path of its key: after
    [t[k] = v] every prefix of [k] leads to a node, so [_find_trie] returns
    on it and [t[p]] does not raise for a prefix [p] of [k]. *)
Theorem set_creates_the_path kt (t t' : trie) (k : key) (v : option V) :
  wf kt t -> __setitem__ t k v = (OK tt, t') ->
  forall p, starts_with p k ->
    (exists n, _find_trie t' p = OK n) /\ (exists x, __getitem__ t' p = OK x).
Proof.
  intros Hwf Hset p (s & Hadd). pose proof (setitem_outcomes kt t k v Hwf) as Hout.
  rewrite Hset in Hout. destruct Hout as [Hty Hlen].
  destruct (setitem_ok kt t k v Hwf Hty Hlen) as (t2 & Hset' & Hwf' & Hv & _).
  assert (t2 = t') as -> by congruence.
  assert (type_of p = type_of s /\ k = glue p s) as [Hps ->].
  { destruct p, s; simpl in *; by simplify_eq. }
  rewrite type_of_glue in Hty. rewrite units_glue in Hv by done.
  unfold value_at in Hv. rewrite find_loop_app in Hv.
  unfold __getitem__. rewrite find_trie_eq, (wf_key_type _ _ Hwf'), decide_True by done.
  destruct (find_loop t' (units p)) as [n|]; [|done].
  split; by eexists.
Qed.


(** X2: deleting a stored key removes that key and nothing else:
    [del t[k]] succeeds, afterwards [k in t] is [False], [t[k]] returns
    [None], a second [del t[k]] raises [KeyError], every other key keeps the
    result of [t[k']] and of [k' in t], and every node is still there (a key
    leads to a node after the deletion exactly when it did before). *)
Theorem delete_removes_only_its_key kt (t : trie) (k : key) :
  wf kt t -> __contains__ t k = OK true ->
  exists t',
    __delitem__ t k = (OK tt, t') /\ wf kt t' /\
    __contains__ t' k = OK false /\
    __getitem__ t' k = OK None /\
    __delitem__ t' k = (Raise KeyError, t') /\
    (forall k', k' <> k ->
       __getitem__ t' k' = __getitem__ t k' /\ __contains__ t' k' = __contains__ t k') /\
    (forall k', (exists n, _find_trie t k' = OK n) <-> (exists n, _find_trie t' k' = OK n)).
Proof.
  intros Hwf Hin.
  destruct (delete_stored kt t k Hwf Hin) as (t' & Hdel & Hwf' & Hc & Hg & Hd & Ho).
  exists t'. split_and!; [done..|]. intros k'. by eapply delete_keeps_paths.
Qed.

(** *** Iteration *)

Lemma fst_prod_map {A B} (f : A -> B) (l : list (A * V)) :
  (prod_map f id <$> l).*1 = f <$> l.*1.
Proof. induction l as [|[a x] l IH]; [done|]. rewrite !fmap_cons. by f_equal. Qed.

Lemma entries_paths_NoDup kt : forall t : trie, wf kt t -> NoDup (entries t).*1.
Proof.
  induction t as [v kt' d IH] using Trie_ind. intros Hwf.
  apply wf_unfold in Hwf as (_ & Hnd & Hall). cbn [children] in *.
  rewrite entries_unfold, fmap_app. cbn [value children].
  apply NoDup_app. split_and!.
  - destruct v; [apply NoDup_singleton|constructor].
  - intros p Hp Hp'. assert (p = []) as ->.
    { destruct v; [by apply list_elem_of_singleton in Hp|by apply elem_of_nil in Hp]. }
    apply list_elem_of_fmap in Hp' as ([p x] & Hp' & Hin). simpl in Hp'. subst p.
    apply list_elem_of_bind in Hin as ([k c] & Hin & _).
    by apply list_elem_of_fmap in Hin as ([p x'] & [= ? ?] & _).
  - clear v. induction d as [|[k c] d IHd]; [constructor|].
    apply Forall_cons in IH as [IHc IH]. apply Forall_cons in Hall as [[_ Hc] Hall].
    rewrite fmap_cons in Hnd. apply NoDup_cons in Hnd as [Hk Hnd].
    rewrite bind_cons, fmap_app. apply NoDup_app. split_and!; [| |by apply IHd].
    + rewrite fst_prod_map. apply NoDup_fmap_2; [|by apply IHc].
      by intros ?? [= ?].
    + intros p ([p1 x1] & -> & ([p2 x2] & [= -> ->] & _)%list_elem_of_fmap)%list_elem_of_fmap
        ([p3 x3] & Hp3 & Hin)%list_elem_of_fmap.
      apply list_elem_of_bind in Hin as ([k' c'] & Hin & Hd).
      apply list_elem_of_fmap in Hin as ([p4 x4] & [= -> ->] & _).
      simpl in Hp3. injection Hp3 as -> _. apply Hk.
      apply list_elem_of_fmap. by exists (k', c').
Qed.

(** X5: iterating over a trie yields each stored key once, with its
    value: [(k, v)] is yielded exactly when [t[k]] returns the value [v],
    other than [None], and no key is yielded twice. *)
Theorem iteration_lists_the_stored_keys kt (t : trie) :
  wf kt t ->
  exists l,
    __iter__ t = OK l /\ NoDup l.*1 /\
    forall k v, (k, v) ∈ l <-> __getitem__ t k = OK (Some v).
Proof.
  intros Hwf. eexists. split_and!; [by apply iter_entries| |].
  - rewrite fst_prod_map.
    apply NoDup_fmap_2_strong; [|by apply (entries_paths_NoDup kt)].
    intros p1 p2 ([p1' x1] & -> & Hin1)%list_elem_of_fmap
      ([p2' x2] & -> & Hin2)%list_elem_of_fmap Heq. simpl in *.
    apply (elem_of_entries kt) in Hin1, Hin2; [|done..].
    apply (stored_at_is_unit kt) in Hin1, Hin2; [|done..].
    apply (f_equal units) in Heq.
    rewrite !units_join, units_empty_key in Heq by (by rewrite type_of_empty_key).
    done.
  - intros k v. rewrite (elem_of_iter kt t _ k v Hwf (iter_entries _ _ Hwf)).
    by rewrite getitem_Some, (wf_key_type _ _ Hwf).
Qed.

(** *** The empty key *)

Lemma setitem_rec_value (self : trie) ty ks v :
  value (setitem_rec self ty ks v).2 = value self.
Proof.
  destruct ks as [|k rest].
  - rewrite setitem_rec_nil. by case_decide.
  - rewrite setitem_rec_cons. case_decide; [|done].
    destruct rest; [done|]. by destruct (setitem_rec _ ty _ v).
Qed.

Lemma after_call_value (t : trie) (c : call) :
  value t = None -> value (after_call t c) = None.
Proof.
  intros Hv. destruct c as [k v|k]; cbn [after_call].
  - unfold __setitem__. by rewrite setitem_rec_value.
  - unfold __delitem__. destruct (_find_trie t k) as [n|]; [|done].
    destruct (value n); [|done]. simpl.
    destruct (units k) as [|k0 ks]; [done|]. cbn [store_value].
    by destruct (dict_get k0 (children t)).
Qed.

Lemma built_value kt (calls : list call) : value (built kt calls : trie) = None.
Proof.
  unfold built. assert (value (new_Trie kt : trie) = None) as Hv by done.
  revert Hv. generalize (new_Trie kt : trie).
  induction calls as [|c calls IH]; intros t Hv; simpl; [done|].
  by apply IH, after_call_value.
Qed.

(** X8: the empty key is never stored.  In every trie built from
    [Trie(kt)] by assignments and deletions, for the empty key of the
    trie's kind ([''] or [()]): [k in t] is [False], [t[k]] returns [None],
    [del t[k]] raises [KeyError] and [t[k] = v] raises [IndexError]. *)
Theorem empty_key_is_never_stored kt (calls : list call) (v : option V) :
  let t : trie := built kt calls in
  __contains__ t (empty_key kt) = OK false /\
  __getitem__ t (empty_key kt) = OK None /\
  __delitem__ t (empty_key kt) = (Raise KeyError, t) /\
  __setitem__ t (empty_key kt) v = (Raise IndexError, t).
Proof.
  intros t. pose proof (wf_after_calls kt calls _ (wf_new kt) : wf kt t) as Hwf.
  pose proof (wf_key_type _ _ Hwf) as Hkt.
  pose proof (built_value kt calls : value t = None) as Hv.
  assert (stored_at t (units (empty_key kt)) = None) as Hs.
  { rewrite units_empty_key. unfold stored_at. simpl. done. }
  split_and!.
  - by rewrite contains_eq, decide_True, Hs by (by rewrite type_of_empty_key).
  - rewrite getitem_eq, decide_True by (by rewrite type_of_empty_key).
    rewrite units_empty_key. unfold value_at. simpl. by rewrite Hv.
  - by rewrite delitem_eq, decide_True, Hs by (by rewrite type_of_empty_key).
  - apply setitem_empty; [by rewrite type_of_empty_key|by destruct kt].
Qed.

End TrieMore.

Lemma wf_bar_bat_trie : wf KStr bar_bat_trie.
Proof.
  apply (wf_after_set KStr bat_trie bar_bat_trie (Str (lit "bar")) (Some 2));
    [exact wf_bat_trie | reflexivity].
Qed.

(** Witness of X1: ['bar'] is assigned in the docstring's trie, ['bat'] is
    the other key. *)
Lemma set_leaves_other_keys_witness :
  __contains__ bar_bat_trie (Str (lit "bat")) = __contains__ bat_trie (Str (lit "bat")) /\
  forall x, __getitem__ bar_bat_trie (Str (lit "bat")) = OK (Some x) <->
            __getitem__ bat_trie (Str (lit "bat")) = OK (Some x).
Proof.
  apply (set_leaves_other_keys KStr bat_trie bar_bat_trie (Str (lit "bar")) (Some 2));
    [exact wf_bat_trie | reflexivity | discriminate].
Defined.

(** Witness of X2: ['bat'] is deleted from the trie holding ['bat'] and
    ['bar']. *)
Lemma delete_removes_only_its_key_witness :
  exists t',
    __delitem__ bar_bat_trie (Str (lit "bat")) = (OK tt, t') /\ wf KStr t' /\
    __contains__ t' (Str (lit "bat")) = OK false /\
    __getitem__ t' (Str (lit "bat")) = OK None /\
    __delitem__ t' (Str (lit "bat")) = (Raise KeyError, t') /\
    (forall k', k' <> Str (lit "bat") ->
       __getitem__ t' k' = __getitem__ bar_bat_trie k' /\
       __contains__ t' k' = __contains__ bar_bat_trie k') /\
    (forall k', (exists n, _find_trie bar_bat_trie k' = OK n) <->
                (exists n, _find_trie t' k' = OK n)).
Proof.
  apply (delete_removes_only_its_key KStr bar_bat_trie (Str (lit "bat")));
    [exact wf_bar_bat_trie | reflexivity].
Defined.

(** Witness of X4, on the docstring's trie and the key ['bar']. *)
Lemma set_succeeds_or_leaves_unchanged_witness :
  ((__setitem__ bat_trie (Str (lit "bar")) (Some 2)).1 = OK tt <->
   type_of (Str (lit "bar") : @pykey nat) = KStr /\
   key_len (Str (lit "bar") : @pykey nat) <> 0%nat) /\
  ((__setitem__ bat_trie (Str (lit "bar")) (Some 2)).1 = Raise TypeError <->
   type_of (Str (lit "bar") : @pykey nat) <> KStr) /\
  ((__setitem__ bat_trie (Str (lit "bar")) (Some 2)).1 = Raise IndexError <->
   type_of (Str (lit "bar") : @pykey nat) = KStr /\
   key_len (Str (lit "bar") : @pykey nat) = 0%nat) /\
  ((__setitem__ bat_trie (Str (lit "bar")) (Some 2)).1 <> OK tt ->
   (__setitem__ bat_trie (Str (lit "bar")) (Some 2)).2 = bat_trie).
Proof.
  apply (set_succeeds_or_leaves_unchanged KStr bat_trie (Str (lit "bar")) (Some 2)).
  exact wf_bat_trie.
Defined.

(** Witness of X5, on the trie holding ['bat'] and ['bar']. *)
Lemma iteration_lists_the_stored_keys_witness :
  exists l,
    __iter__ bar_bat_trie = OK l /\ NoDup l.*1 /\
    forall k v, (k, v) ∈ l <-> __getitem__ bar_bat_trie k = OK (Some v).
Proof.
  apply (iteration_lists_the_stored_keys KStr bar_bat_trie). exact wf_bar_bat_trie.
Defined.

(** Witness of X7: ['ba'] is a prefix of ['bar']. *)
Lemma set_creates_the_path_witness :
  (exists n, _find_trie bar_bat_trie (Str (lit "ba")) = OK n) /\
  (exists x, __getitem__ bar_bat_trie (Str (lit "ba")) = OK x).
Proof.
  apply (set_creates_the_path KStr bat_trie bar_bat_trie (Str (lit "bar")) (Some 2));
    [exact wf_bat_trie | reflexivity | by exists (Str (lit "r"))].
Defined.

(** ** The indexes *)

Lemma split_space_nonempty (w : str) : split_space w <> [].
Proof.
  destruct w as [|c w]; [done|]. cbn [split_space].
  case_decide; [done|]. by destruct (split_space w).
Qed.

Lemma join_space_cons (w : str) (ws : list str) :
  ws <> [] -> join_space (w :: ws) = w ++ " "%char :: join_space ws.
Proof. by destruct ws. Qed.

Lemma split_space_cons (c : ascii) (w : str) :
  c <> " "%char ->
  exists x xs, split_space w = x :: xs /\ split_space (c :: w) = (c :: x) :: xs.
Proof.
  intros Hc. pose proof (split_space_nonempty w) as Hne.
  cbn [split_space]. rewrite decide_False by done.
  destruct (split_space w) as [|x xs]; [done|]. by exists x, xs.
Qed.

(** [" ".join(w.split(" ")) == w] *)
Lemma join_split_space (w : str) : join_space (split_space w) = w.
Proof.
  induction w as [|c w IH]; [done|].
  destruct (decide (c = " "%char)) as [->|Hc].
  - cbn [split_space]. rewrite decide_True by done.
    rewrite join_space_cons by apply split_space_nonempty. by rewrite IH.
  - destruct (split_space_cons c w Hc) as (x & xs & Hw & ->). rewrite Hw in IH.
    destruct xs as [|y ys]; simpl in *; by rewrite IH.
Qed.

Lemma split_space_no_space (w : str) : Forall (fun x => " "%char ∉ x) (split_space w).
Proof.
  induction w as [|c w IH]; [repeat constructor; apply not_elem_of_nil|].
  destruct (decide (c = " "%char)) as [->|Hc].
  - cbn [split_space]. rewrite decide_True by done.
    constructor; [apply not_elem_of_nil|done].
  - destruct (split_space_cons c w Hc) as (x & xs & Hw & ->). rewrite Hw in IH.
    apply Forall_cons in IH as [Hx Hxs]. constructor; [|done].
    rewrite not_elem_of_cons. split; [congruence|done].
Qed.

Lemma foldl_snoc {A} (l acc : list A) :
  foldl (fun a x => a ++ [x]) acc l = acc ++ l.
Proof.
  revert acc. induction l as [|x l IH]; intros acc; simpl; [by rewrite app_nil_r|].
  by rewrite IH, <-app_assoc.
Qed.

Lemma get_sentence_tuple_eq (st : str) : get_sentence_tuple st = Tup (split_space st).
Proof. unfold get_sentence_tuple. by rewrite foldl_snoc. Qed.

Lemma get_sentence_tuple_inj (a b : str) :
  get_sentence_tuple a = get_sentence_tuple b -> a = b.
Proof.
  rewrite !get_sentence_tuple_eq. intros [= Heq].
  by rewrite <-(join_split_space a), Heq, join_split_space.
Qed.

(** X11: [get_sentence_tuple] returns the tuple of the words between the
    spaces of the sentence: it is never empty, no word contains a space, and
    joining the words with spaces gives the sentence back, so two sentences
    with the same tuple are equal. *)
Theorem sentence_tuple_round_trip (st : str) :
  exists ws,
    get_sentence_tuple st = Tup ws /\ ws <> [] /\
    Forall (fun w => " "%char ∉ w) ws /\ join_space ws = st /\
    forall st', get_sentence_tuple st' = Tup ws -> st' = st.
Proof.
  exists (split_space st). rewrite get_sentence_tuple_eq.
  split_and!; [done|apply split_space_nonempty|apply split_space_no_space
              |apply join_split_space|].
  intros st' Heq. apply get_sentence_tuple_inj.
  by rewrite Heq, get_sentence_tuple_eq.
Qed.

Lemma occurrences_app {A} `{EqDecision A} (x : A) (l1 l2 : list A) :
  occurrences x (l1 ++ l2) = occurrences x l1 + occurrences x l2.
Proof. unfold occurrences. rewrite filter_app, length_app. lia. Qed.

Lemma occurrences_notin {A} `{EqDecision A} (x : A) (l : list A) :
  x ∉ l -> occurrences x l = 0.
Proof.
  intros Hx. unfold occurrences.
  induction l as [|y l IH]; [done|]. apply not_elem_of_cons in Hx as [Hne Hx].
  rewrite filter_cons_False by congruence. by apply IH.
Qed.

Lemma occurrences_fmap {A B} `{EqDecision A} `{EqDecision B} (f : A -> B)
    (x : A) (l : list A) :
  (forall a b, f a = f b -> a = b) -> occurrences (f x) (f <$> l) = occurrences x l.
Proof.
  intros Hinj. unfold occurrences. f_equal.
  induction l as [|y l IH]; [done|]. rewrite fmap_cons.
  destruct (decide (y = x)) as [->|Hne].
  - rewrite !filter_cons_True by done. simpl. by rewrite IH.
  - rewrite !filter_cons_False; [done|done|]. intros Heq. apply Hne. by apply Hinj.
Qed.

Section IndexFacts.
Context {E : Type} `{EqDecision E}.

#[local] Abbreviation key := (@pykey E).
#[local] Abbreviation trie := (@Trie E Z).

Lemma setitem_then (t t' : trie) (k : key) v :
  __setitem__ t k v = (OK tt, t') ->
  (let (r, t2) := __setitem__ t k v in r ;; OK t2) = OK t'.
Proof. by intros ->. Qed.

(** One turn of the loop of an index, on a non-empty key of the trie's
    kind. *)
Lemma count_key_spec kt (t : trie) (m : list key) (k : key) :
  wf kt t -> counted kt t m -> type_of k = kt -> key_len k <> 0%nat ->
  exists t',
    count_key t k = OK t' /\ wf kt t' /\ counted kt t' (m ++ [k]) /\
    value t' = value t.
Proof.
  intros Hwf Hm Hty Hlen. pose proof (wf_key_type _ _ Hwf) as Hkt.
  unfold count_key. rewrite contains_eq, getitem_eq.
  destruct (decide (type_of k = key_type t)) as [_|Hne]; [|destruct Hne; congruence].
  cbn [mbind result_bind]. rewrite stored_at_value_at.
  pose proof (Hm k Hty) as Hk. rewrite stored_at_value_at in Hk.
  assert (forall v t', __setitem__ t k (Some v) = (OK tt, t') ->
            (forall ks, stored_at t' ks
                        = if decide (ks = units k) then Some v else stored_at t ks) ->
            v = occurrences k m + 1 -> counted kt t' (m ++ [k])) as Hcount.
  { intros v t' Hset Hst Hv k' Hty'. rewrite Hst.
    destruct (decide (units k' = units k)) as [Hu|Hu].
    - assert (k' = k) as -> by (apply units_inj; congruence).
      rewrite decide_True by (apply elem_of_app; right; left).
      rewrite occurrences_app, Hv. do 2 f_equal.
      unfold occurrences. by rewrite filter_cons_True.
    - assert (k' <> k) as Hne by congruence.
      rewrite (Hm k' Hty'), occurrences_app.
      rewrite (occurrences_notin k' [k]) by (by apply not_elem_of_cons; split;
        [|apply not_elem_of_nil]).
      rewrite Z.add_0_r. destruct (decide (k' ∈ m)) as [Hin|Hin].
      + rewrite decide_True; [done|]. apply elem_of_app. by left.
      + rewrite decide_False; [done|]. rewrite elem_of_app, list_elem_of_singleton.
        tauto. }
  assert (forall v t', __setitem__ t k (Some v) = (OK tt, t') -> value t' = value t)
    as Hval.
  { intros v t' Hset. unfold __setitem__ in Hset.
    pose proof (setitem_rec_value t (type_of k) (units k) (Some v)) as Hv.
    by rewrite Hset in Hv. }
  destruct (decide (k ∈ m)) as [Hin|Hin].
  - destruct (value_at t (units k)) as [[c|]|] eqn:Hv; [|done..].
    injection Hk as ->. simpl.
    destruct (setitem_ok kt t k (Some (occurrences k m + 1)) Hwf Hty Hlen)
      as (t' & Hset & Hwf' & _ & Hst).
    exists t'. rewrite (setitem_then _ _ _ _ Hset).
    split_and!; [done|done|by eapply Hcount|by eapply Hval].
  - assert (bool_decide (is_Some (match value_at t (units k) with
                                  | OK v => v | Raise _ => None end)) = false) as ->.
    { rewrite Hk. apply bool_decide_eq_false. by intros [? ?]. }
    destruct (setitem_ok kt t k (Some 1) Hwf Hty Hlen)
      as (t' & Hset & Hwf' & _ & Hst).
    exists t'. rewrite (setitem_then _ _ _ _ Hset).
    split_and!; [done|done| |by eapply Hval].
    eapply Hcount; [done..|]. by rewrite occurrences_notin.
Qed.

Lemma counted_new kt : counted kt (new_Trie kt : trie) [].
Proof.
  intros k _. rewrite stored_at_new, decide_False; [done|apply not_elem_of_nil].
Qed.

Lemma count_words_spec (ws : list str) : forall (t : trie) (m : list key),
  wf KStr t -> counted KStr t m -> Forall (fun w => w <> []) ws ->
  exists t',
    count_words t ws = OK t' /\ wf KStr t' /\ counted KStr t' (m ++ (Str <$> ws)) /\
    value t' = value t.
Proof.
  induction ws as [|w ws IH]; intros t m Hwf Hm Hne; cbn [count_words].
  - exists t. by rewrite app_nil_r.
  - apply Forall_cons in Hne as [Hw Hne].
    destruct (count_key_spec KStr t m (Str w) Hwf Hm) as (t1 & H1 & Hwf1 & Hm1 & Hv1);
      [done|by destruct w|].
    change (count_word t w) with (count_key t (Str w)). rewrite H1.
    cbn [mbind result_bind].
    destruct (IH t1 _ Hwf1 Hm1 Hne) as (t' & -> & Hwf' & Hm' & Hv').
    exists t'. rewrite <- (assoc_L (++)) in Hm'.
    split_and!; [done|done|exact Hm'|congruence].
Qed.

Lemma count_words_app (ws1 ws2 : list str) : forall t : trie,
  count_words t (ws1 ++ ws2) = t1 ← count_words t ws1; count_words t1 ws2.
Proof.
  induction ws1 as [|w ws1 IH]; intros t; [done|]. simpl.
  destruct (count_word t w); simpl; [apply IH|done].
Qed.

Lemma count_sentences_words (ss : list str) : forall t : trie,
  count_sentences t ss = count_words t (words_of ss).
Proof.
  unfold words_of. induction ss as [|st ss IH]; intros t; [done|].
  cbn [count_sentences]. rewrite bind_cons, count_words_app.
  destruct (count_words t (split_space st)); simpl; [apply IH|done].
Qed.

Variable tokenize_sentences : str -> list str.

(** X9: when no word of the sentences is empty, [make_word_trie] returns
    a trie that holds exactly the words of the text, each with the number of
    times it occurs: [w in t] holds exactly for the words [w] of the text,
    and [t[w]] is the number of occurrences of [w]. *)
Theorem word_index_counts (text : str) :
  Forall (fun w => w <> []) (words_of (tokenize_sentences text)) ->
  exists t : trie,
    make_word_trie tokenize_sentences text = OK t /\ wf KStr t /\
    forall w,
      __contains__ t (Str w)
      = OK (bool_decide (w ∈ words_of (tokenize_sentences text))) /\
      (w ∈ words_of (tokenize_sentences text) ->
       __getitem__ t (Str w)
       = OK (Some (occurrences w (words_of (tokenize_sentences text))))).
Proof.
  intros Hne. unfold make_word_trie. rewrite count_sentences_words.
  destruct (count_words_spec _ (new_Trie KStr) [] (wf_new KStr) (counted_new KStr) Hne)
    as (t & -> & Hwf & Hm & _).
  exists t. split_and!; [done..|]. intros w.
  pose proof (wf_key_type _ _ Hwf) as Hkt.
  pose proof (Hm (Str w) eq_refl) as Hw. simpl app in Hw.
  assert (Str w ∈ (Str <$> words_of (tokenize_sentences text) : list key)
          <-> w ∈ words_of (tokenize_sentences text)) as Hin.
  { rewrite list_elem_of_fmap. split; [by intros (? & [= ->] & ?)|]. by exists w. }
  rewrite (occurrences_fmap Str) in Hw by (by intros ?? [= ?]).
  split.
  - rewrite contains_eq, decide_True, Hw by done. f_equal.
    destruct (decide _) as [Hd|Hd].
    + rewrite (bool_decide_true (_ ∈ _)) by tauto. by apply bool_decide_eq_true.
    + rewrite (bool_decide_false (_ ∈ _)) by tauto.
      apply bool_decide_eq_false. by intros [? ?].
  - intros Hwin. apply getitem_Some. split; [done|].
    rewrite Hw, decide_True; tauto.
Qed.

(** X10: when some word of the sentences is empty (a sentence is empty,
    starts or ends with a space, or has two spaces in a row),
    [make_word_trie] raises [IndexError]: the empty word is not in the trie,
    so it is assigned, and [key[0]] fails. *)
Theorem word_index_empty_word (text : str) :
  [] ∈ words_of (tokenize_sentences text) ->
  make_word_trie (E:=E) tokenize_sentences text = Raise IndexError.
Proof.
  intros (pre & post & Hsplit & Hpre)%list_elem_of_split_l.
  unfold make_word_trie. rewrite count_sentences_words, Hsplit, count_words_app.
  assert (Forall (fun w : str => w <> []) pre) as Hne.
  { apply Forall_forall. intros w Hw ->. done. }
  destruct (count_words_spec pre (new_Trie KStr) [] (wf_new KStr) (counted_new KStr) Hne)
    as (t1 & -> & Hwf & _ & Hv).
  cbn [mbind result_bind count_words]. unfold count_word.
  pose proof (wf_key_type _ _ Hwf) as Hkt.
  rewrite contains_eq, decide_True by done.
  unfold stored_at. simpl. rewrite Hv. simpl.
  by rewrite setitem_empty.
Qed.

End IndexFacts.

Lemma count_phrases_spec (ss : list str) : forall (t : @Trie str Z) m,
  wf KTuple t -> counted KTuple t m ->
  exists t',
    count_phrases t ss = OK t' /\ wf KTuple t' /\
    counted KTuple t' (m ++ (get_sentence_tuple <$> ss)).
Proof.
  induction ss as [|st ss IH]; intros t m Hwf Hm; cbn [count_phrases].
  - exists t. by rewrite app_nil_r.
  - destruct (count_key_spec KTuple t m (get_sentence_tuple st) Hwf Hm)
      as (t1 & H1 & Hwf1 & Hm1 & _).
    { by rewrite get_sentence_tuple_eq. }
    { rewrite get_sentence_tuple_eq. simpl.
      pose proof (split_space_nonempty st). by destruct (split_space st). }
    change (count_sentence t st) with (count_key t (get_sentence_tuple st)).
    rewrite H1. cbn [mbind result_bind].
    destruct (IH t1 _ Hwf1 Hm1) as (t' & -> & Hwf' & Hm').
    exists t'. rewrite <- (assoc_L (++)) in Hm'.
    split_and!; [done|done|exact Hm'].
Qed.

(** X12: [make_phrase_trie] never raises, whatever the sentences are (the
    tuple of a sentence is never empty), and returns a trie that holds
    exactly the tuples of the sentences, each with the number of times the
    sentence occurs. *)
Theorem phrase_index_counts (tokenize_sentences : str -> list str) (text : str) :
  exists t,
    make_phrase_trie tokenize_sentences text = OK t /\ wf KTuple t /\
    forall st,
      __contains__ t (get_sentence_tuple st)
      = OK (bool_decide (st ∈ tokenize_sentences text)) /\
      (st ∈ tokenize_sentences text ->
       __getitem__ t (get_sentence_tuple st)
       = OK (Some (occurrences st (tokenize_sentences text)))).
Proof.
  unfold make_phrase_trie.
  destruct (count_phrases_spec (tokenize_sentences text) (new_Trie KTuple) []
              (wf_new KTuple) (counted_new KTuple)) as (t & -> & Hwf & Hm).
  exists t. split_and!; [done..|]. intros st.
  pose proof (wf_key_type _ _ Hwf) as Hkt.
  pose proof get_sentence_tuple_inj as Hinj.
  assert (type_of (get_sentence_tuple st) = KTuple) as Hty
    by (by rewrite get_sentence_tuple_eq).
  pose proof (Hm (get_sentence_tuple st) Hty) as Hw. simpl app in Hw.
  assert (get_sentence_tuple st ∈ get_sentence_tuple <$> tokenize_sentences text
          <-> st ∈ tokenize_sentences text) as Hin.
  { rewrite list_elem_of_fmap. split; [|by exists st].
    by intros (? & ->%Hinj & ?). }
  rewrite (occurrences_fmap get_sentence_tuple) in Hw by done.
  split.
  - rewrite contains_eq, decide_True, Hw by congruence. f_equal.
    destruct (decide _) as [Hd|Hd].
    + rewrite (bool_decide_true (_ ∈ _)) by tauto. by apply bool_decide_eq_true.
    + rewrite (bool_decide_false (_ ∈ _)) by tauto.
      apply bool_decide_eq_false. by intros [? ?].
  - intros Hwin. apply getitem_Some. split; [congruence|].
    rewrite Hw, decide_True; tauto.
Qed.

Lemma word_index_counts_witness :
  exists t : @Trie nat Z,
    make_word_trie one_sentence (lit "bar bark bat bat") = OK t /\ wf KStr t /\
    forall w,
      __contains__ t (Str w)
      = OK (bool_decide (w ∈ words_of (one_sentence (lit "bar bark bat bat")))) /\
      (w ∈ words_of (one_sentence (lit "bar bark bat bat")) ->
       __getitem__ t (Str w)
       = OK (Some (occurrences w (words_of (one_sentence (lit "bar bark bat bat")))))).
Proof.
  apply (word_index_counts (E:=nat) one_sentence (lit "bar bark bat bat")).
  vm_compute. repeat constructor; discriminate.
Defined.

Lemma word_index_empty_word_witness :
  make_word_trie (E:=nat) one_sentence (lit "bar  bat") = Raise IndexError.
Proof.
  apply (word_index_empty_word one_sentence (lit "bar  bat")).
  vm_compute. apply list_elem_of_further, list_elem_of_here.
Defined.

(** ** Membership and lookup *)

Section LookupFacts.
Context {E : Type} `{EqDecision E}.
Context {V : Type}.

#[local] Abbreviation key := (@pykey E).
#[local] Abbreviation trie := (@Trie E V).

(** X13: [k in t] is decided by [t[k]]: it is [True] exactly when [t[k]]
    returns a value other than [None], [False] when [t[k]] returns [None] or
    raises [KeyError], and it raises [TypeError] exactly when [t[k]] does;
    [k in t] never raises [KeyError]. *)
Theorem membership_follows_lookup (t : trie) (k : key) :
  __contains__ t k
  = match __getitem__ t k with
    | OK (Some _) => OK true
    | OK None => OK false
    | Raise KeyError => OK false
    | Raise e => Raise e
    end /\
  __contains__ t k <> Raise KeyError /\
  (__getitem__ t k = Raise TypeError <-> type_of k <> key_type t) /\
  (__getitem__ t k = Raise KeyError <-> _find_trie t k = Raise KeyError).
Proof.
  rewrite contains_eq, getitem_eq, find_trie_eq, stored_at_value_at.
  destruct (decide (type_of k = key_type t)) as [Hty|Hty].
  - unfold value_at.
    destruct (find_loop t (units k)) as [n|e] eqn:Hf; cbn [mbind result_bind].
    + split_and!; [by destruct (value n)|by destruct (value n)| |done].
      split; [done|]. by intros [].
    + apply find_loop_raise in Hf as ->.
      split_and!; [done|done| |done]. split; [done|]. by intros [].
  - by split_and!.
Qed.

End LookupFacts.

(** ** The edits that [get_edits] yields *)

Lemma far_swap_generated (p w : str) : far_swap p w -> w ∈ get_edits_str p.
Proof.
  intros [a b c d m _ Hp]. unfold get_edits_str. rewrite !elem_of_app. do 3 right.
  unfold get_two_char_transpose.
  assert (length p = (length a + length m + length b + 2)%nat) as Hlen.
  { rewrite Hp, !length_app. simpl. rewrite length_app. simpl. lia. }
  assert (p !! length a = Some c) as Hc by (by rewrite Hp, list_lookup_middle).
  assert (p !! (length a + S (length m))%nat = Some d) as Hd.
  { rewrite Hp, lookup_app_r by lia.
    replace (length a + S (length m) - length a)%nat with (S (length m)) by lia.
    simpl. by rewrite list_lookup_middle. }
  assert (take (length a) p = a) as Ha by (by rewrite Hp, take_app_length).
  assert (slice (length a + 1) (length a + S (length m)) p = m) as Hmid.
  { unfold slice. rewrite Hp, cons_middle, app_assoc.
    rewrite drop_app_length' by (rewrite length_app; simpl; lia).
    replace (length a + S (length m) - (length a + 1))%nat with (length m) by lia.
    by rewrite take_app_length. }
  assert (drop (length a + S (length m) + 1) p = b) as Hb.
  { rewrite Hp, cons_middle, app_assoc, (cons_middle d), !app_assoc.
    apply drop_app_length'. rewrite !length_app. simpl. lia. }
  apply list_elem_of_bind. exists (length a). split; [|apply elem_of_seq; lia].
  apply list_elem_of_bind. exists (length a + S (length m))%nat.
  split; [|apply elem_of_seq; lia].
  rewrite (slice_one _ _ _ Hc), (slice_one _ _ _ Hd), Ha, Hmid, Hb.
  by apply list_elem_of_singleton.
Qed.

(** X14: the words that [get_edits] yields for a string are exactly the
    words at one insertion of a lowercase letter, one deletion, one
    replacement by a lowercase letter or one exchange of two characters of
    the word, adjacent or not. *)
Theorem get_edits_yields_edits_and_exchanges (p w : str) :
  w ∈ get_edits_str p <-> edit1 p w \/ far_swap p w.
Proof.
  split; [apply generated_edit1_or_far_swap|].
  intros [Hed|Hfar]; [by apply edit1_generated|by apply far_swap_generated].
Qed.

(** ** The two loops of [autocomplete] and [autocorrect] *)

Lemma NoDup_range_down (m : Z) : NoDup (range_down m).
Proof.
  unfold range_down. apply NoDup_fmap_2_strong; [|apply NoDup_seq].
  intros i j _ _ Hij. lia.
Qed.

Lemma NoDup_cap {A} mc len (l : list A) : NoDup l -> NoDup (cap mc len l).
Proof.
  intros Hl. destruct mc; simpl; [|done]. eapply sublist_NoDup, sublist_take. done.
Qed.

Section RankingMore.
Context {E : Type} `{EqDecision E}.
Variable set_iter : forall A : Type, list A -> list A.
Hypothesis set_iter_perm : forall (A : Type) (l : list A), set_iter A l ≡ₚ l.

#[local] Abbreviation key := (@pykey E).
#[local] Abbreviation state := (gmap Z (list key) * option Z)%type.

Lemma tally_NoDup (st : state) (w : key) c :
  (forall i, NoDup (bucket st.1 i)) -> forall i, NoDup (bucket (tally st w c).1 i).
Proof.
  intros Hst i. unfold tally, bucket. simpl.
  pose proof (Hst c) as Hc. unfold bucket in Hc.
  destruct (st.1 !! c) as [ws|] eqn:Hws; simpl in *.
  - destruct (decide (i = c)) as [->|Hne].
    + rewrite lookup_insert_eq. simpl. by apply set_add_NoDup.
    + rewrite lookup_insert_ne by done. apply Hst.
  - destruct (decide (i = c)) as [->|Hne].
    + rewrite lookup_insert_eq. simpl. apply NoDup_singleton.
    + rewrite lookup_insert_ne by done. apply Hst.
Qed.

Lemma foldl_tally_NoDup (es : list (key * Z)) : forall st : state,
  (forall i, NoDup (bucket st.1 i)) ->
  forall i, NoDup (bucket (foldl (fun st e => tally st e.1 e.2) st es).1 i).
Proof.
  induction es as [|[w c] es IH]; intros st Hst; simpl; [done|].
  apply IH. by apply tally_NoDup.
Qed.

Lemma ranked_NoDup (fm : gmap Z (list key)) range :
  NoDup range -> (forall i, NoDup (bucket fm i)) -> NoDup (ranked set_iter fm range).
Proof.
  intros Hr Hfm. induction Hr as [|i range Hi Hr IH]; [constructor|].
  rewrite ranked_cons. apply NoDup_app. split_and!; [| |done].
  - apply NoDup_fmap_2_strong; [by intros ?? _ _ [= ?]|].
    specialize (Hfm i). unfold bucket in Hfm.
    destruct (fm !! i) as [ws|]; simpl in *; [by rewrite set_iter_perm|constructor].
  - intros x (w & -> & _)%list_elem_of_fmap Hin.
    unfold ranked in Hin. apply list_elem_of_bind in Hin as (j & Hin & Hj).
    by apply list_elem_of_fmap in Hin as (w' & [= _ ->] & _).
Qed.

(** What the second loop appends: the pairs [kept], the first ones of the
    ranking that there is room for. *)
Lemma emit_kept (mk : key -> result key) (g : key -> key) mc
    (st : state) seen (el : list key) m :
  tallied st seen -> (forall i, NoDup (bucket st.1 i)) -> st.2 = Some m ->
  (forall w i, (w, i) ∈ seen -> mk w = OK (g w)) ->
  (forall w i j, (w, i) ∈ seen -> (w, j) ∈ seen -> i = j) ->
  exists kept : list (key * Z),
    emit set_iter mk mc st el = OK (el ++ (g <$> kept.*1)) /\
    NoDup kept.*1 /\
    (forall w i, (w, i) ∈ kept -> (w, i) ∈ seen /\ 0 < i) /\
    (forall n, mc = Some n ->
       Z.of_nat (length kept) <= Z.max 0 (n - Z.of_nat (length el))) /\
    (forall w i, (w, i) ∈ seen -> 0 < i -> w ∉ kept.*1 ->
       exists n, mc = Some n /\
         Z.of_nat (length kept) = Z.max 0 (n - Z.of_nat (length el))) /\
    (forall w i w' i', (w, i) ∈ kept -> (w', i') ∈ seen -> w' ∉ kept.*1 -> i' <= i).
Proof.
  intros Hst Hnd Hm Hmk Hfun.
  set (R := ranked set_iter st.1 (range_down m)).
  assert (forall w i, (w, i) ∈ R <-> 1 <= i <= m /\ (w, i) ∈ seen) as HR.
  { intros w i. unfold R. rewrite (elem_of_ranked set_iter set_iter_perm st seen) by done.
    by rewrite elem_of_range_down. }
  assert (forall w i, (w, i) ∈ seen -> 0 < i -> (w, i) ∈ R) as Hin.
  { intros w i Hs Hpos. apply HR. split; [|done]. destruct Hst as (_ & _ & Hmax).
    specialize (Hmax m Hm _ _ Hs Hpos). lia. }
  exists (cap mc (length el) R). split_and!.
  - by rewrite (emit_spec set_iter set_iter_perm mk g mc st seen el m).
  - rewrite <-cap_fmap. apply NoDup_cap.
    apply NoDup_fmap_2_strong; [|apply ranked_NoDup; [apply NoDup_range_down|done]].
    intros [w i] [w' j] [_ Hx]%HR [_ Hy]%HR Heq. simpl in Heq. subst w'.
    f_equal. by eapply Hfun.
  - intros w i [Hr Hs]%cap_subseteq%HR. split; [done|lia].
  - intros n ->. simpl. rewrite length_take. lia.
  - intros w i Hs Hpos Hout. specialize (Hin w i Hs Hpos).
    destruct mc as [n|]; simpl in *.
    + exists n. split; [done|].
      destruct (decide (length R <= Z.to_nat (n - Z.of_nat (length el)))%nat) as [Hle|Hgt].
      * destruct Hout. rewrite take_ge by done. apply list_elem_of_fmap.
        by exists (w, i).
      * rewrite length_take. lia.
    + destruct Hout. apply list_elem_of_fmap. by exists (w, i).
  - intros w i w' i' Hk Hs Hout.
    destruct (decide (0 < i')) as [Hpos|Hneg].
    + apply (cap_ranked_top set_iter st.1 (range_down m) mc (length el) (w, i) (w', i'));
        [apply range_down_sorted|done|by apply Hin|done].
    + apply cap_subseteq, HR in Hk. lia.
Qed.

#[local] Abbreviation tallies es :=
  (foldl (fun (st : state) (e : key * Z) => tally st e.1 e.2) (∅, None) es).

Lemma tallies_tallied (es : list (key * Z)) : tallied (tallies es) es.
Proof. apply (tallied_foldl _ (∅, None) []), tallied_empty. Qed.

Lemma tallies_NoDup (es : list (key * Z)) i : NoDup (bucket (tallies es).1 i).
Proof.
  apply foldl_tally_NoDup. intros j. unfold bucket. simpl. rewrite lookup_empty.
  constructor.
Qed.

Lemma iter_keys_NoDup {V} kt (t : @Trie E V) es :
  wf kt t -> __iter__ t = OK es -> NoDup es.*1.
Proof.
  intros Hwf Hes. rewrite (iter_entries _ _ Hwf) in Hes. injection Hes as <-.
  rewrite fst_prod_map.
  apply NoDup_fmap_2_strong; [|by apply (entries_paths_NoDup kt)].
  intros p1 p2 ([p1' x1] & -> & Hin1)%list_elem_of_fmap
    ([p2' x2] & -> & Hin2)%list_elem_of_fmap Heq. simpl in *.
  apply (elem_of_entries kt) in Hin1, Hin2; [|done..].
  apply (stored_at_is_unit kt) in Hin1, Hin2; [|done..].
  apply (f_equal units) in Heq.
  rewrite !units_join, units_empty_key in Heq by (by rewrite type_of_empty_key).
  done.
Qed.

Lemma autocomplete_emit kt (trie t : @Trie E Z) (prefix : key) mc :
  wf kt trie -> _find_trie trie prefix = OK t ->
  exists es,
    __iter__ t = OK es /\
    autocomplete set_iter trie prefix mc
    = emit set_iter (py_add prefix) mc (tallies es) [].
Proof.
  intros Hwf Hf. pose proof Hf as Hf'.
  rewrite find_trie_eq in Hf. case_decide as Hty; [|done].
  destruct (wf_find_loop _ _ _ _ Hwf Hf) as [Hwft _].
  eexists. split; [by apply iter_entries|].
  unfold autocomplete. rewrite Hf'. cbn [mbind result_bind].
  rewrite (iter_entries _ _ Hwft). cbn [mbind result_bind].
  destruct (emit _ _ _ _ _) as [l|e] eqn:Hres; [done|].
  apply emit_raise in Hres as ->; [done|]. apply py_add_raise.
Qed.

(** X15: what [autocomplete] leaves out.  The list it returns has no
    duplicates, and a stored key that starts with the prefix and has a
    positive count is missing from it only when [max_count] is set and the
    list holds [max_count] keys (none for a negative [max_count]).  With
    [max_count] unset the list holds exactly the stored keys that start with
    the prefix and have a positive count. *)
Theorem autocomplete_leaves_out_only_when_full kt (trie : @Trie E Z)
    (prefix : key) mc l :
  wf kt trie -> autocomplete set_iter trie prefix mc = OK l ->
  NoDup l /\
  (forall y f,
     starts_with prefix y -> __getitem__ trie y = OK (Some f) -> 0 < f ->
     y ∈ l \/ exists n, mc = Some n /\ Z.of_nat (length l) = Z.max 0 n) /\
  (mc = None ->
   forall y, y ∈ l <->
     starts_with prefix y /\ exists f, __getitem__ trie y = OK (Some f) /\ 0 < f).
Proof.
  intros Hwf Hl. pose proof (wf_key_type _ _ Hwf) as Hkt.
  pose proof (autocomplete_OK_type set_iter _ _ _ _ Hl) as Hty. rewrite Hkt in Hty.
  destruct (find_loop trie (units prefix)) as [t|e] eqn:Hf.
  - assert (_find_trie trie prefix = OK t) as Hft
      by (by rewrite find_trie_eq, decide_True by congruence).
    destruct (autocomplete_emit kt trie t prefix mc Hwf Hft) as (es & Hes & Heq).
    rewrite Heq in Hl. clear Heq.
    destruct (wf_find_loop _ _ _ _ Hwf Hf) as [Hwft _].
    assert (forall w f, (w, f) ∈ es <-> type_of w = kt /\ stored_at t (units w) = Some f)
      as Hin by (intros; by apply elem_of_iter).
    pose proof (tallies_tallied es) as Hst. pose proof (tallies_NoDup es) as Hnd.
    destruct (tallies es).2 as [m|] eqn:Hm; [|by unfold emit in Hl; rewrite Hm in Hl].
    destruct (emit_kept (py_add prefix) (glue prefix) mc (tallies es) es [] m Hst Hnd Hm)
      as (kept & Hemit & Hndk & Hkin & Hlen & Hout & _).
    { intros w i [Hw _]%Hin. apply py_add_glue. congruence. }
    { intros w i j [_ Hi]%Hin [_ Hj]%Hin. congruence. }
    rewrite Hemit in Hl. injection Hl as <-. simpl.
    assert (forall y, y ∈ glue prefix <$> kept.*1
                      <-> exists w f, y = glue prefix w /\ (w, f) ∈ kept) as Hl.
    { intros y. rewrite list_elem_of_fmap. split.
      - intros (w & -> & ([w' f] & -> & Hk)%list_elem_of_fmap). by exists w', f.
      - intros (w & f & -> & Hk). exists w. split; [done|].
        apply list_elem_of_fmap. by exists (w, f). }
    assert (forall y f, starts_with prefix y -> __getitem__ trie y = OK (Some f) ->
              exists w, y = glue prefix w /\ (w, f) ∈ es) as Hy.
    { intros y f (w & Htw & ->)%starts_with_glue Hg. exists w. split; [done|].
      apply (getitem_glue kt trie t) in Hg; [|done|congruence..].
      apply Hin. split; congruence. }
    split_and!.
    + apply NoDup_fmap_2_strong; [|done].
      intros x y ([x' fx] & -> & [[Hx _]%Hin _]%Hkin)%list_elem_of_fmap
        ([y' fy] & -> & [[Hy' _]%Hin _]%Hkin)%list_elem_of_fmap Heq. simpl in *.
      apply units_inj; [congruence|]. apply (f_equal units) in Heq.
      rewrite !units_glue in Heq by congruence. by apply app_inv_head in Heq.
    + intros y f Hsw Hg Hpos. destruct (Hy y f Hsw Hg) as (w & -> & Hes').
      destruct (decide (w ∈ kept.*1)) as [Hk|Hk].
      * left. apply list_elem_of_fmap. by exists w.
      * right. destruct (Hout w f Hes' Hpos Hk) as (n & -> & Hn).
        exists n. split; [done|]. rewrite !length_fmap. simpl in Hn. lia.
    + intros -> y. rewrite Hl. split.
      * intros (w & f & -> & [[Htw Hs]%Hin Hpos]%Hkin). split.
        -- apply starts_with_glue. exists w. split; [congruence|done].
        -- exists f. split; [|done]. apply (getitem_glue kt trie t); try done; congruence.
      * intros (Hsw & f & Hg & Hpos). destruct (Hy y f Hsw Hg) as (w & -> & Hes').
        exists w, f. split; [done|].
        destruct (decide (w ∈ kept.*1)) as [Hk|Hk].
        -- apply list_elem_of_fmap in Hk as ([w' f'] & -> & Hk). simpl.
           assert (f' = f) as ->; [|done].
           apply Hkin in Hk as [[_ Hk]%Hin _]. apply Hin in Hes' as [_ Hes'].
           simpl in *. congruence.
        -- by destruct (Hout w f Hes' Hpos Hk) as (n & [=] & _).
  - pose proof (find_loop_raise _ _ _ Hf) as ->.
    rewrite (autocomplete_absent set_iter) in Hl
      by (by rewrite find_trie_eq, decide_True, Hf by congruence).
    injection Hl as <-.
    assert (forall y f, starts_with prefix y -> __getitem__ trie y = OK (Some f) -> False)
      as Hno.
    { intros y f (w & Htw & ->)%starts_with_glue [_ Hs]%getitem_Some.
      rewrite units_glue in Hs by done.
      apply stored_at_app_Some in Hs as [n Hn]. congruence. }
    split_and!; [constructor| |].
    + intros y f Hsw Hg _. destruct (Hno y f Hsw Hg).
    + intros _ y. split; [by intros ?%elem_of_nil|].
      intros (Hsw & f & Hg & _). destruct (Hno y f Hsw Hg).
Qed.

(** *** The exceptions of the two functions *)

Lemma recursive_generator_outcome {V} (t : @Trie E V) : forall k : key,
  (exists l, recursive_generator k t = OK l) \/
  recursive_generator k t = Raise TypeError.
Proof.
  induction t as [v kt d IH] using Trie_ind. intros k.
  rewrite recursive_generator_unfold. cbn [value children].
  match goal with |- (exists l, mbind _ ?r = _) \/ _ =>
    assert ((exists l, r = OK l) \/ r = Raise TypeError) as [[l ->]| ->];
      [|left; by eexists|by right] end.
  induction d as [|[k0 c] d IHd]; [left; by eexists|].
  apply Forall_cons in IH as [IHc IH]. cbn [snd] in *.
  destruct (py_add k k0) as [k'|e] eqn:Hadd; cbn [mbind result_bind].
  - destruct (IHc k') as [[l1 ->] | ->]; cbn [mbind result_bind]; [|by right].
    destruct (IHd IH) as [[l2 ->] | ->]; cbn [mbind result_bind];
      [left; by eexists|by right].
  - right. by apply py_add_raise in Hadd as ->.
Qed.

Lemma emit_outcome (mk : key -> result key) mc (st : state) el :
  (forall w e, mk w = Raise e -> e = TypeError) ->
  (exists l, emit set_iter mk mc st el = OK l) \/
  emit set_iter mk mc st el = Raise TypeError.
Proof.
  intros Hmk. destruct (emit set_iter mk mc st el) as [l|e] eqn:Hres;
    [left; by eexists|].
  right. by apply emit_raise in Hres as ->.
Qed.

Lemma autocomplete_outcome (trie : @Trie E Z) (prefix : key) mc :
  (exists l, autocomplete set_iter trie prefix mc = OK l) \/
  autocomplete set_iter trie prefix mc = Raise TypeError.
Proof.
  unfold autocomplete. rewrite find_trie_eq. case_decide as Hty; [|by right].
  destruct (find_loop trie (units prefix)) as [t|e] eqn:Hf.
  - cbn [mbind result_bind]. unfold __iter__.
    assert ((exists es, match key_type t with
                        | KTuple => recursive_generator (Tup []) t
                        | KStr => recursive_generator (Str []) t
                        end = OK es) \/
            match key_type t with
            | KTuple => recursive_generator (Tup []) t
            | KStr => recursive_generator (Str []) t
            end = Raise TypeError) as [[es ->]| ->];
      [destruct (key_type t); apply recursive_generator_outcome| |by right].
    cbn [mbind result_bind].
    match goal with |- context [emit _ ?mk ?mc ?st ?el] =>
      destruct (emit_outcome mk mc st el) as [[l Hl]|Hl];
        [apply py_add_raise| |]; rewrite Hl; [left; by eexists|by right] end.
  - apply find_loop_raise in Hf as ->. left. by eexists.
Qed.

Lemma tally_edits_outcome (trie : @Trie E Z) used words : forall st : state,
  (exists st', tally_edits trie used words st = OK st') \/
  tally_edits trie used words st = Raise TypeError.
Proof.
  induction words as [|w words IH]; intros st; [left; by eexists|].
  cbn [tally_edits]. destruct (decide (w ∈ used)); [by apply IH|].
  destruct (__contains__ trie w) as [[]|e] eqn:Hc; cbn [mbind result_bind].
  - apply contains_true in Hc as [c ->]. cbn [mbind result_bind]. apply IH.
  - apply IH.
  - right. rewrite contains_eq in Hc. case_decide; by simplify_eq.
Qed.

Lemma autocorrect_outcome (trie : @Trie E Z) (prefix : key) mc :
  (exists l, autocorrect set_iter trie prefix mc = OK l) \/
  autocorrect set_iter trie prefix mc = Raise TypeError.
Proof.
  unfold autocorrect.
  destruct (autocomplete_outcome trie prefix mc) as [[l ->]| ->];
    cbn [mbind result_bind]; [|by right].
  destruct (room mc l); [|left; by eexists].
  destruct prefix as [p|ws]; cbn [get_edits mbind result_bind]; [|by right].
  destruct (tally_edits_outcome trie l (Str <$> get_edits_str p) (∅, None))
    as [[st ->]| ->]; cbn [mbind result_bind]; [|by right].
  apply emit_outcome. by intros.
Qed.

(** X16: [autocomplete] and [autocorrect] return a list or raise
    [TypeError], on every trie, prefix and [max_count]: the [KeyError] of a
    missing prefix is caught, and no other exception is raised. *)
Theorem completion_raises_only_TypeError (trie : @Trie E Z) (prefix : key) mc :
  ((exists l, autocomplete set_iter trie prefix mc = OK l) \/
   autocomplete set_iter trie prefix mc = Raise TypeError) /\
  ((exists l, autocorrect set_iter trie prefix mc = OK l) \/
   autocorrect set_iter trie prefix mc = Raise TypeError).
Proof. split; [apply autocomplete_outcome|apply autocorrect_outcome]. Qed.

(** X17: on a tuple prefix [autocorrect] cannot look for edits, the
    first edit [prefix[:0] + 'a'] raising [TypeError]: with [max_count]
    unset it always raises [TypeError], and with [max_count] set it either
    returns the list of [autocomplete], which then holds at least
    [max_count] keys, or raises [TypeError]. *)
Theorem autocorrect_of_tuple_prefix (trie : @Trie E Z) (ws : list E) :
  autocorrect set_iter trie (Tup ws) None = Raise TypeError /\
  forall n,
    (exists l,
       autocorrect set_iter trie (Tup ws) (Some n) = OK l /\
       autocomplete set_iter trie (Tup ws) (Some n) = OK l /\
       n <= Z.of_nat (length l)) \/
    autocorrect set_iter trie (Tup ws) (Some n) = Raise TypeError.
Proof.
  split; [|intros n]; unfold autocorrect.
  - by destruct (autocomplete_outcome trie (Tup ws) None) as [[l ->]| ->].
  - destruct (autocomplete_outcome trie (Tup ws) (Some n)) as [[l ->]| ->];
      cbn [mbind result_bind]; [|by right].
    unfold room. case_bool_decide as Hn; [by right|].
    left. exists l. split_and!; [done..|lia].
Qed.

(** X18: what [autocorrect] adds when [autocomplete] left room.  On a
    string prefix, when [autocomplete] returned [l] with fewer than
    [max_count] keys (or [max_count] is unset) and some edit of the prefix
    outside [l] is a stored key, [autocorrect] returns [l] followed by a
    list [extra] without duplicates of edits of the prefix that are outside
    [l] and stored with a positive count; the whole list holds at most
    [max_count] keys; such an edit is missing only when the list holds
    [max_count] keys, and then its count is at most that of every edit that
    was added. *)
Theorem autocorrect_fills_with_edits (trie : @Trie E Z) (p : str) mc l :
  autocomplete set_iter trie (Str p) mc = OK l -> room mc l = true ->
  (exists w, w ∈ get_edits_str p /\ (Str w ∉ l) /\ __contains__ trie (Str w) = OK true) ->
  exists extra,
    autocorrect set_iter trie (Str p) mc = OK (l ++ extra) /\
    NoDup extra /\
    (forall x, x ∈ extra ->
       (x ∉ l) /\
       exists w f, x = Str w /\ w ∈ get_edits_str p /\
                   __getitem__ trie x = OK (Some f) /\ 0 < f) /\
    (forall n, mc = Some n -> Z.of_nat (length (l ++ extra)) <= n) /\
    (forall w f,
       w ∈ get_edits_str p -> Str w ∉ l ->
       __getitem__ trie (Str w) = OK (Some f) -> 0 < f ->
       Str w ∈ extra \/
       exists n, mc = Some n /\ Z.of_nat (length (l ++ extra)) = n) /\
    (forall x w f f',
       x ∈ extra -> w ∈ get_edits_str p -> Str w ∉ l -> Str w ∉ extra ->
       __getitem__ trie x = OK (Some f) -> __getitem__ trie (Str w) = OK (Some f') ->
       f' <= f).
Proof.
  intros Hl Hroom (w0 & Hw0 & Hnl0 & [f0 Hf0]%contains_true).
  pose proof (autocomplete_OK_type set_iter _ _ _ _ Hl) as Hty.
  unfold autocorrect. rewrite Hl. cbn [mbind result_bind get_edits]. rewrite Hroom.
  set (words := Str <$> get_edits_str p).
  rewrite tally_edits_spec by (by intros w (? & -> & _)%list_elem_of_fmap).
  cbn [mbind result_bind].
  set (seen := omap (valid_edit trie l) words).
  pose proof (tallies_tallied seen) as Hst. pose proof (tallies_NoDup seen) as Hnd.
  assert (forall x f, (x, f) ∈ seen <->
            (exists w, x = Str w /\ w ∈ get_edits_str p) /\ (x ∉ l) /\
            __getitem__ trie x = OK (Some f)) as Hseen.
  { intros x f. unfold seen. rewrite elem_of_valid_edits. unfold words.
    rewrite list_elem_of_fmap. split.
    - intros ((w & -> & Hw) & Hx & Hg). split; [by exists w|done].
    - intros ((w & -> & Hw) & Hx & Hg). split; [by exists w|done]. }
  assert ((Str w0, f0) ∈ seen) as Hseen0.
  { apply Hseen. split; [by exists w0|done]. }
  destruct (tallies seen).2 as [m|] eqn:Hm.
  2:{ destruct Hst as (_ & [Hnil _] & _). rewrite Hnil in Hseen0 by done.
      by apply elem_of_nil in Hseen0. }
  destruct (emit_kept OK id mc (tallies seen) seen l m Hst Hnd Hm)
    as (kept & Hemit & Hndk & Hkin & Hlen & Hout & Htop); [done|..].
  { intros x i j [_ [_ Hi]]%Hseen [_ [_ Hj]]%Hseen. congruence. }
  rewrite list_fmap_id in Hemit. exists kept.*1.
  assert (forall x, x ∈ kept.*1 <-> exists f, (x, f) ∈ kept) as Hk.
  { intros x. rewrite list_elem_of_fmap. split.
    - intros ([x' f] & -> & Hin). by exists f.
    - intros (f & Hin). by exists (x, f). }
  assert (forall n, mc = Some n -> Z.max 0 (n - Z.of_nat (length l))
                                   = n - Z.of_nat (length l)) as Hmax.
  { intros n ->. simpl in Hroom. apply bool_decide_eq_true in Hroom. lia. }
  split_and!; [done|done|..].
  - intros x [f [[(w & -> & Hw) [Hx Hg]]%Hseen Hpos]%Hkin]%Hk.
    split; [done|]. by exists w, f.
  - intros n Hn. specialize (Hlen n Hn). rewrite (Hmax n Hn) in Hlen.
    rewrite length_app, length_fmap. lia.
  - intros w f Hw Hx Hg Hpos.
    destruct (decide (Str w ∈ kept.*1)) as [Hin|Hin]; [by left|right].
    destruct (Hout (Str w) f) as (n & Hn & Hfull); [|done..|].
    { apply Hseen. split; [by exists w|done]. }
    exists n. split; [done|]. rewrite (Hmax n Hn) in Hfull.
    rewrite length_app, length_fmap. lia.
  - intros x w f f' [fx Hx]%Hk Hw Hnl Hne Hgx Hgw.
    pose proof Hx as [[_ [_ Hgx']]%Hseen _]%Hkin.
    assert (fx = f) as -> by congruence.
    apply (Htop x f (Str w) f'); [done| |done].
    apply Hseen. split; [by exists w|done].
Qed.

End RankingMore.

(** Witness of X15: the completions of ['ba'] in the index of the
    docstring of [autocomplete], with [max_count] unset. *)
Lemma autocomplete_leaves_out_only_when_full_witness :
  NoDup [Str (lit "bat") : @pykey nat; Str (lit "bar"); Str (lit "bark")] /\
  (forall y f,
     starts_with (Str (lit "ba")) y ->
     __getitem__ (trie_of "bat bat bark bar") y = OK (Some f) -> 0 < f ->
     y ∈ [Str (lit "bat"); Str (lit "bar"); Str (lit "bark")] \/
     exists n, @None Z = Some n /\
       Z.of_nat (length [Str (lit "bat") : @pykey nat; Str (lit "bar"); Str (lit "bark")])
       = Z.max 0 n) /\
  (@None Z = None ->
   forall y, y ∈ [Str (lit "bat"); Str (lit "bar"); Str (lit "bark")] <->
     starts_with (Str (lit "ba")) y /\
     exists f, __getitem__ (trie_of "bat bat bark bar") y = OK (Some f) /\ 0 < f).
Proof.
  apply (autocomplete_leaves_out_only_when_full insertion_order insertion_order_perm
           KStr (trie_of "bat bat bark bar") (Str (lit "ba")) None);
    [apply wf_trie_of|vm_compute; reflexivity].
Defined.

(** Witness of X18: the prefix ['bar'] with [max_count = 3] in the same
    index: [autocomplete] returns ['bar'] and ['bark'], and the edit ['bat']
    is stored. *)
Lemma autocorrect_fills_with_edits_witness :
  exists extra,
    autocorrect insertion_order (trie_of "bat bat bark bar") (Str (lit "bar")) (Some 3)
    = OK ([Str (lit "bar"); Str (lit "bark")] ++ extra) /\
    NoDup extra /\
    (forall x, x ∈ extra ->
       (x ∉ [Str (lit "bar"); Str (lit "bark")]) /\
       exists w f, x = Str w /\ w ∈ get_edits_str (lit "bar") /\
                   __getitem__ (trie_of "bat bat bark bar") x = OK (Some f) /\ 0 < f) /\
    (forall n, Some 3 = Some n ->
       Z.of_nat (length ([Str (lit "bar"); Str (lit "bark")] ++ extra)) <= n) /\
    (forall w f,
       w ∈ get_edits_str (lit "bar") -> (Str w ∉ [Str (lit "bar") : @pykey nat; Str (lit "bark")]) ->
       __getitem__ (trie_of "bat bat bark bar") (Str w) = OK (Some f) -> 0 < f ->
       Str w ∈ extra \/
       exists n, Some 3 = Some n /\
         Z.of_nat (length ([Str (lit "bar"); Str (lit "bark")] ++ extra)) = n) /\
    (forall x w f f',
       x ∈ extra -> w ∈ get_edits_str (lit "bar") ->
       (Str w ∉ [Str (lit "bar") : @pykey nat; Str (lit "bark")]) -> Str w ∉ extra ->
       __getitem__ (trie_of "bat bat bark bar") x = OK (Some f) ->
       __getitem__ (trie_of "bat bat bark bar") (Str w) = OK (Some f') ->
       f' <= f).
Proof.
  apply (autocorrect_fills_with_edits insertion_order insertion_order_perm
           (trie_of "bat bat bark bar") (lit "bar") (Some 3)
           [Str (lit "bar"); Str (lit "bark")]);
    [vm_compute; reflexivity|vm_compute; reflexivity|].
  exists (lit "bat"). split_and!; [| |vm_compute; reflexivity].
  - apply (bool_decide_unpack _). vm_compute. reflexivity.
  - apply (bool_decide_unpack _). vm_compute. reflexivity.
Defined.

(** ** More on wildcard search *)

Lemma matches_literal (p : str) :
  Forall (fun c => c <> "*"%char /\ c <> "?"%char) p ->
  forall w, matches p w <-> w = p.
Proof.
  induction 1 as [|c p [Hs Ha] _ IH]; intros w; [apply matches_nil_iff|].
  rewrite matches_char_iff by done. split.
  - intros (u & -> & ->%IH). done.
  - intros ->. exists p. split; [done|]. by apply IH.
Qed.

Lemma matches_star_all (w : str) : matches (lit "*") w.
Proof.
  rewrite <-(app_nil_r w). apply (matches_star [] w []). constructor.
Qed.

Section SearchMore.
Context {E : Type} `{EqDecision E}.
Context {V : Type} `{EqDecision V}.
Variable set_iter : forall A : Type, list A -> list A.
Hypothesis set_iter_perm : forall (A : Type) (l : list A), set_iter A l ≡ₚ l.

#[local] Abbreviation key := (@pykey E).
#[local] Abbreviation trie := (@Trie E V).

Lemma skip_stars_length (pattern : str) :
  (length (tail (skip_stars pattern)) < length pattern)%nat \/ pattern = [].
Proof.
  induction pattern as [|a [|b p] IH]; [by right|left; simpl; lia|left].
  rewrite skip_stars_cons. destruct (decide (b = "*"%char)); [|simpl; lia].
  destruct IH as [IH|?]; [|done]. simpl in *. lia.
Qed.

Lemma search_tuple_trie (t : trie) (fuel : nat) :
  key_type t = KTuple ->
  forall (pattern w : str), (length pattern < fuel)%nat ->
    search set_iter fuel t pattern (Str w) = Exc TypeError.
Proof.
  intros Hkt. induction fuel as [|fuel IH]; intros pattern w Hfuel; [lia|].
  assert (_find_trie t (Str w) = Raise TypeError) as Hfind
    by (by rewrite find_trie_eq, decide_False by (by rewrite Hkt)).
  destruct pattern as [|p0 pattern]; cbn [search].
  - by rewrite contains_eq, decide_False by (by rewrite Hkt).
  - destruct (decide (p0 = "*"%char)) as [->|Hstar].
    + rewrite IH; [done|].
      destruct (skip_stars_length ("*"%char :: pattern)) as [Hlen|?]; [|done].
      simpl in *. lia.
    + destruct (decide (p0 = "?"%char)) as [->|Hany]; [by rewrite Hfind|].
      cbn [py_add lift mbind run_bind].
      by rewrite find_trie_eq, decide_False by (by rewrite Hkt).
Qed.

(** X20: on a trie whose keys are tuples [word_filter] raises
    [TypeError] for every pattern: the search starts from the string [""],
    which is not a key of the trie's kind. *)
Theorem word_filter_of_tuple_trie (t : trie) (pattern : str) (fuel : nat) :
  key_type t = KTuple -> (length pattern < fuel)%nat ->
  word_filter set_iter fuel t pattern = Exc TypeError.
Proof.
  intros Hkt Hfuel. unfold word_filter. by rewrite search_tuple_trie.
Qed.

(** X21: a pattern without [*] and [?] is a lookup: on a string trie
    [word_filter] returns the one pair of the key [pattern] with its value
    when [t[pattern]] returns a value other than [None], and the empty list
    otherwise. *)
Theorem word_filter_literal_is_lookup (t : trie) (pattern : str) (fuel : nat) :
  wf KStr t -> (length pattern + height t < fuel)%nat ->
  Forall (fun c => c <> "*"%char /\ c <> "?"%char) pattern ->
  word_filter set_iter fuel t pattern
  = Ret match __getitem__ t (Str pattern) with
        | OK (Some f) => [(Str pattern, Some f)]
        | _ => []
        end.
Proof.
  intros Hwf Hfuel Hlit.
  destruct (word_filter_matches set_iter set_iter_perm t pattern fuel Hwf Hfuel)
    as (l & -> & Hnd & Hin).
  f_equal.
  assert (forall k v, (k, v) ∈ l <->
            k = Str pattern /\ exists f, v = Some f /\
              __getitem__ t (Str pattern) = OK (Some f)) as Hin'.
  { intros k v. rewrite Hin. split.
    - intros (w & f & -> & -> & ->%(matches_literal pattern Hlit) & Hg).
      split; [done|]. by exists f.
    - intros (-> & f & -> & Hg). exists pattern, f.
      split_and!; [done..| |done]. by apply matches_literal. }
  destruct (__getitem__ t (Str pattern)) as [[f|]|e] eqn:Hg.
  - apply Permutation_singleton_r, NoDup_Permutation; [done|apply NoDup_singleton|].
    intros [k v]. rewrite Hin', list_elem_of_singleton. split.
    + by intros (-> & f' & -> & [= ->]).
    + intros [= -> ->]. split; [done|]. by exists f.
  - apply elem_of_nil_inv. intros [k v] (_ & f & _ & ?)%Hin'. done.
  - apply elem_of_nil_inv. intros [k v] (_ & f & _ & ?)%Hin'. done.
Qed.

(** X22: the pattern [*] lists the trie: on a string trie
    [word_filter] returns, in some order, the pairs that iteration yields. *)
Theorem word_filter_star_is_iteration (t : trie) (fuel : nat) :
  wf KStr t -> (1 + height t < fuel)%nat ->
  exists es l,
    __iter__ t = OK es /\
    word_filter set_iter fuel t (lit "*") = Ret l /\
    l ≡ₚ (fun e => (e.1, Some e.2)) <$> es.
Proof.
  intros Hwf Hfuel.
  pose proof (iter_entries _ _ Hwf) as Hes. eexists. 
  destruct (word_filter_matches set_iter set_iter_perm t (lit "*") fuel Hwf Hfuel)
    as (l & Hl & Hnd & Hin).
  exists l. split_and!; [done..|].
  pose proof (iter_keys_NoDup KStr t _ Hwf Hes) as Hkeys.
  apply NoDup_Permutation; [done| |].
  - apply NoDup_fmap_2_strong; [|by eapply NoDup_fmap_1].
    intros [k1 v1] [k2 v2] _ _ [= -> ->]. done.
  - intros [k v]. rewrite Hin, list_elem_of_fmap. split.
    + intros (w & f & -> & -> & _ & Hg). exists (Str w, f). split; [done|].
      apply (elem_of_iter KStr t _ _ _ Hwf Hes).
      by apply getitem_Some in Hg as [_ Hg].
    + intros ([k' f] & [= -> ->] & [Hty Hs]%(elem_of_iter KStr t _ _ _ Hwf Hes)).
      destruct k' as [w|?]; [|done]. exists w, f.
      split_and!; [done..|apply matches_star_all|].
      apply getitem_Some. by rewrite (wf_key_type _ _ Hwf).
Qed.

End SearchMore.

(** Witness of X20: the pattern [*a] on the phrase index of one sentence. *)
Lemma word_filter_of_tuple_trie_witness :
  word_filter insertion_order 3 waffles_trie (lit "*a") = Exc TypeError.
Proof.
  apply (word_filter_of_tuple_trie insertion_order waffles_trie (lit "*a") 3);
    [vm_compute; reflexivity|simpl; lia].
Defined.

(** Witness of X21: the pattern [bat] on the index of the docstring of
    [word_filter]. *)
Lemma word_filter_literal_is_lookup_witness :
  word_filter insertion_order 8 (trie_of "bar bark bat bat") (lit "bat")
  = Ret match __getitem__ (trie_of "bar bark bat bat") (Str (lit "bat")) with
        | OK (Some f) => [(Str (lit "bat"), Some f)]
        | _ => []
        end.
Proof.
  apply (word_filter_literal_is_lookup insertion_order insertion_order_perm
           (trie_of "bar bark bat bat") (lit "bat") 8).
  - apply wf_trie_of.
  - vm_compute. lia.
  - repeat constructor; discriminate.
Defined.

(** Witness of X22: the same index. *)
Lemma word_filter_star_is_iteration_witness :
  exists es l,
    __iter__ (trie_of "bar bark bat bat") = OK es /\
    word_filter insertion_order 8 (trie_of "bar bark bat bat") (lit "*") = Ret l /\
    l ≡ₚ (fun e => (e.1, Some e.2)) <$> es.
Proof.
  apply (word_filter_star_is_iteration insertion_order insertion_order_perm
           (trie_of "bar bark bat bat") 8).
  - apply wf_trie_of.
  - vm_compute. lia.
Defined.


(** ** Laws of assignment and iteration *)

Lemma StronglySorted_lookup_lt {A} (R : relation A) (l : list A) :
  StronglySorted R l ->
  forall i j x y, l !! i = Some x -> l !! j = Some y -> (i < j)%nat -> R x y.
Proof.
  induction 1 as [|a l Hs IH Hall]; intros i j x y Hi Hj Hij; [done|].
  destruct j as [|j]; [lia|]. destruct i as [|i]; simpl in *.
  - injection Hi as <-. rewrite Forall_forall in Hall.
    by eapply Hall, list_elem_of_lookup_2.
  - apply (IH i j); [done..|lia].
Qed.

Section TrieLaws.
Context {E : Type} `{EqDecision E}.
Context {V : Type}.

#[local] Abbreviation key := (@pykey E).
#[local] Abbreviation trie := (@Trie E V).
#[local] Abbreviation dict := (list (key * trie)).

Lemma dict_set_set (k : key) (c1 c2 : trie) (d : dict) :
  dict_set k c2 (dict_set k c1 d) = dict_set k c2 d.
Proof.
  induction d as [|[k0 t0] d IH]; simpl; [by rewrite decide_True|].
  destruct (decide (k = k0)) as [->|Hk]; simpl; [by rewrite decide_True|].
  by rewrite decide_False, IH.
Qed.

Lemma child_or_new_with_child (self : trie) (k : key) (c : trie) :
  child_or_new (with_child self k c) k = c.
Proof.
  unfold child_or_new, with_child. simpl. by rewrite dict_get_set, decide_True.
Qed.

Lemma with_child_twice (self : trie) (k : key) (c1 c2 : trie) :
  with_child (with_child self k c1) k c2 = with_child self k c2.
Proof. unfold with_child, set_children. simpl. by rewrite dict_set_set. Qed.

Lemma setitem_rec_twice ty (ks : list key) (v1 v2 : option V) : forall self : trie,
  setitem_rec (setitem_rec self ty ks v1).2 ty ks v2 = setitem_rec self ty ks v2.
Proof.
  induction ks as [|k rest IH]; intros self.
  - rewrite (setitem_rec_nil self). by case_decide.
  - rewrite (setitem_rec_cons self ty k rest v1), (setitem_rec_cons self ty k rest v2).
    case_decide as Hty; [|cbn [snd]; by rewrite setitem_rec_cons, decide_False].
    destruct rest as [|k1 rest].
    + cbn [snd]. rewrite setitem_rec_cons, decide_True by done.
      by rewrite child_or_new_with_child, with_child_twice.
    + specialize (IH (child_or_new self k)).
      destruct (setitem_rec (child_or_new self k) ty (k1 :: rest) v1) as [r1 cur1].
      cbn [snd] in *. rewrite setitem_rec_cons, decide_True by done.
      rewrite child_or_new_with_child, IH.
      destruct (setitem_rec (child_or_new self k) ty (k1 :: rest) v2) as [r2 cur2].
      by rewrite with_child_twice.
Qed.

(** X23: the last assignment wins.  Assigning a key twice leaves the
    same trie, node for node, and gives the same outcome as the second
    assignment alone; this holds for every key, also one on which
    the assignment raises. *)
Theorem last_assignment_wins (t : trie) (k : key) (v1 v2 : option V) :
  __setitem__ (__setitem__ t k v1).2 k v2 = __setitem__ t k v2.
Proof. apply setitem_rec_twice. Qed.

Lemma setitem_stored_at kt (t : trie) (k : key) v :
  wf kt t ->
  wf kt (__setitem__ t k v).2 /\
  forall ks,
    stored_at (__setitem__ t k v).2 ks
    = if decide (type_of k = kt /\ key_len k <> 0%nat /\ ks = units k) then v
      else stored_at t ks.
Proof.
  intros Hwf. pose proof (wf_key_type _ _ Hwf) as Hkt.
  destruct (decide (type_of k = kt)) as [Hty|Hty].
  - destruct (decide (key_len k = 0%nat)) as [Hlen|Hlen].
    + rewrite setitem_empty by congruence. split; [done|]. intros ks.
      rewrite decide_False; [done|tauto].
    + destruct (setitem_ok kt t k v Hwf Hty Hlen) as (t' & -> & Hwf' & _ & Hst).
      split; [done|]. intros ks. rewrite Hst. simpl.
      destruct (decide (ks = units k)).
      * by rewrite decide_True.
      * rewrite decide_False; [done|tauto].
  - rewrite setitem_wrong_type by congruence. split; [done|]. intros ks.
    rewrite decide_False; [done|tauto].
Qed.

(** X24: assignments to different keys commute, up to the order of
    iteration.  Whichever of [t[k1] = v1] and [t[k2] = v2] comes first,
    and whether they return or raise, the resulting tries give the same
    result for [k in t], hold the same values, and iterate over the same
    pairs, possibly in a different order. *)
Theorem assignments_commute kt (t : trie) (k1 k2 : key) (v1 v2 : option V) :
  wf kt t -> k1 <> k2 ->
  exists l12 l21,
    __iter__ (__setitem__ (__setitem__ t k1 v1).2 k2 v2).2 = OK l12 /\
    __iter__ (__setitem__ (__setitem__ t k2 v2).2 k1 v1).2 = OK l21 /\
    l12 ≡ₚ l21 /\
    forall k,
      __contains__ (__setitem__ (__setitem__ t k1 v1).2 k2 v2).2 k
      = __contains__ (__setitem__ (__setitem__ t k2 v2).2 k1 v1).2 k /\
      forall x,
        __getitem__ (__setitem__ (__setitem__ t k1 v1).2 k2 v2).2 k = OK (Some x) <->
        __getitem__ (__setitem__ (__setitem__ t k2 v2).2 k1 v1).2 k = OK (Some x).
Proof.
  intros Hwf Hne.
  destruct (setitem_stored_at kt t k1 v1 Hwf) as [Hwf1 Hst1].
  destruct (setitem_stored_at kt t k2 v2 Hwf) as [Hwf2 Hst2].
  destruct (setitem_stored_at kt _ k2 v2 Hwf1) as [Hwf12 Hst12].
  destruct (setitem_stored_at kt _ k1 v1 Hwf2) as [Hwf21 Hst21].
  set (t12 := (__setitem__ (__setitem__ t k1 v1).2 k2 v2).2) in *.
  set (t21 := (__setitem__ (__setitem__ t k2 v2).2 k1 v1).2) in *.
  assert (forall ks, stored_at t12 ks = stored_at t21 ks) as Hst.
  { intros ks. rewrite Hst12, Hst21, Hst1, Hst2.
    destruct (decide (type_of k2 = kt /\ key_len k2 <> 0%nat /\ ks = units k2))
      as [(Ht2 & _ & Hk2)|_]; [|done].
    destruct (decide (type_of k1 = kt /\ key_len k1 <> 0%nat /\ ks = units k1))
      as [(Ht1 & _ & Hk1)|_]; [|done].
    destruct Hne. apply units_inj; congruence. }
  pose proof (iter_entries _ _ Hwf12) as H12.
  pose proof (iter_entries _ _ Hwf21) as H21.
  eexists _, _. split_and!; [done|done| |].
  - apply NoDup_Permutation.
    + eapply NoDup_fmap_1, (iter_keys_NoDup kt t12); done.
    + eapply NoDup_fmap_1, (iter_keys_NoDup kt t21); done.
    + intros [k v]. rewrite (elem_of_iter kt t12 _ k v Hwf12 H12).
      rewrite (elem_of_iter kt t21 _ k v Hwf21 H21). by rewrite Hst.
  - intros k. split.
    + rewrite !contains_eq, Hst.
      by rewrite (wf_key_type _ _ Hwf12), (wf_key_type _ _ Hwf21).
    + intros x. rewrite !getitem_Some, Hst.
      by rewrite (wf_key_type _ _ Hwf12), (wf_key_type _ _ Hwf21).
Qed.

(** *** The order of iteration *)

Lemma entries_parents_first kt : forall t : trie,
  wf kt t ->
  StronglySorted (fun x y : list key * V => ~ y.1 `prefix_of` x.1) (entries t).
Proof.
  induction t as [v kt' d IH] using Trie_ind. intros Hwf.
  apply wf_unfold in Hwf as (_ & Hnd & Hall). cbn [children] in *.
  rewrite entries_unfold. cbn [value children].
  apply StronglySorted_app_2.
  - intros x y Hx Hy. assert (x.1 = []) as ->.
    { destruct v; [by apply list_elem_of_singleton in Hx as ->
                  |by apply elem_of_nil in Hx]. }
    apply list_elem_of_bind in Hy as ([k c] & Hy & _).
    apply list_elem_of_fmap in Hy as ([p x'] & -> & _). simpl.
    apply prefix_nil_not.
  - destruct v; repeat constructor.
  - clear v. induction d as [|[k c] d IHd]; [constructor|].
    apply Forall_cons in IH as [IHc IH]. apply Forall_cons in Hall as [[_ Hc] Hall].
    rewrite fmap_cons in Hnd. apply NoDup_cons in Hnd as [Hk Hnd].
    rewrite bind_cons. apply StronglySorted_app_2; [| |by apply IHd].
    + intros x y ([p1 x1] & -> & _)%list_elem_of_fmap Hy. simpl.
      apply list_elem_of_bind in Hy as ([k' c'] & Hy & Hd).
      apply list_elem_of_fmap in Hy as ([p2 x2] & -> & _). simpl.
      intros ->%prefix_cons_inv_1. apply Hk.
      apply list_elem_of_fmap. by exists (k, c').
    + eapply StronglySorted_fmap; [|by apply IHc].
      intros [p1 x1] [p2 x2] Hp. simpl in *. intros Hpre. apply Hp.
      by eapply prefix_cons_inv_2.
Qed.

(** X25: iteration yields a key before the keys that extend it: when
    the pair at position [i] has the key [k] and the pair at position [j] a
    different key that starts with [k], then [i < j]. *)
Theorem iteration_yields_prefixes_first kt (t : trie) :
  wf kt t ->
  exists l,
    __iter__ t = OK l /\
    forall i j x y,
      l !! i = Some x -> l !! j = Some y ->
      starts_with x.1 y.1 -> x.1 <> y.1 -> (i < j)%nat.
Proof.
  intros Hwf. eexists. split; [by apply iter_entries|].
  intros i j x y Hi Hj Hsw Hne.
  apply list_lookup_fmap_Some in Hi as ([p1 x1] & Hx & Hi).
  apply list_lookup_fmap_Some in Hj as ([p2 x2] & Hy & Hj).
  subst x y. simpl in *.
  assert (forall p (v : V), (p, v) ∈ entries t -> units (join (empty_key kt) p) = p)
    as Hunits.
  { intros p v Hp%(elem_of_entries kt)%(stored_at_is_unit kt); [|done..].
    by rewrite units_join, units_empty_key by (by rewrite type_of_empty_key). }
  pose proof (Hunits _ _ (list_elem_of_lookup_2 _ _ _ Hi)) as Hu1.
  pose proof (Hunits _ _ (list_elem_of_lookup_2 _ _ _ Hj)) as Hu2.
  assert (p1 `prefix_of` p2) as Hpre.
  { apply starts_with_glue in Hsw as (w & Htw & Heq).
    apply (f_equal units) in Heq. rewrite units_glue, Hu1, Hu2 in Heq by done.
    by exists (units w). }
  destruct (decide (i < j)%nat) as [|Hge]; [done|].
  destruct (decide (i = j)) as [->|Hij]; [congruence|].
  destruct (StronglySorted_lookup_lt _ _ (entries_parents_first kt t Hwf)
              j i _ _ Hj Hi); [lia|done].
Qed.

End TrieLaws.

(** Witness of X24: ['bar'] and ['bark'] assigned in the docstring's trie. *)
Lemma assignments_commute_witness :
  exists l12 l21,
    __iter__ (__setitem__ (__setitem__ bat_trie (Str (lit "bar")) (Some 2)).2
                (Str (lit "bark")) (Some 3)).2 = OK l12 /\
    __iter__ (__setitem__ (__setitem__ bat_trie (Str (lit "bark")) (Some 3)).2
                (Str (lit "bar")) (Some 2)).2 = OK l21 /\
    l12 ≡ₚ l21 /\
    forall k,
      __contains__ (__setitem__ (__setitem__ bat_trie (Str (lit "bar")) (Some 2)).2
                      (Str (lit "bark")) (Some 3)).2 k
      = __contains__ (__setitem__ (__setitem__ bat_trie (Str (lit "bark")) (Some 3)).2
                        (Str (lit "bar")) (Some 2)).2 k /\
      forall x,
        __getitem__ (__setitem__ (__setitem__ bat_trie (Str (lit "bar")) (Some 2)).2
                       (Str (lit "bark")) (Some 3)).2 k = OK (Some x) <->
        __getitem__ (__setitem__ (__setitem__ bat_trie (Str (lit "bark")) (Some 3)).2
                       (Str (lit "bar")) (Some 2)).2 k = OK (Some x).
Proof.
  apply (assignments_commute KStr bat_trie (Str (lit "bar")) (Str (lit "bark"))
           (Some 2) (Some 3)); [exact wf_bat_trie|discriminate].
Defined.

(** Witness of X25: the index of the docstring of [word_filter], where
    ['bar'] is yielded before ['bark']. *)
Lemma iteration_yields_prefixes_first_witness :
  exists l,
    __iter__ (trie_of "bar bark bat bat") = OK l /\
    forall i j x y,
      l !! i = Some x -> l !! j = Some y ->
      starts_with x.1 y.1 -> x.1 <> y.1 -> (i < j)%nat.
Proof.
  apply (iteration_yields_prefixes_first KStr (trie_of "bar bark bat bat")).
  apply wf_trie_of.
Defined.
